(** * BM77 blood-pressure monitor: device controller

    A shallow embedding of the class [BM77] of the device controller
    (scan, connect, notification stream and the 20-byte frame decoder),
    with the properties of its specification stated and settled on it.

    The decoder is JavaScript string code: it reads entries of an array of
    two-character hexadecimal strings, concatenates them, and hands them to
    [parseInt(_, 16)].  Entries that are out of range are [undefined]; the
    model keeps that value, and the not-a-number result it leads to. *)

From Stdlib Require Import ZArith NArith Lia Ascii String List.
From Stdlib.Strings Require Import Byte.
From Stdlib Require Import DecimalString.
From stdpp Require Import base list strings.

Local Open Scope Z_scope.
Local Open Scope string_scope.
Local Open Scope list_scope.

(** ** The fragment of JavaScript values the controller computes with *)

Module Js.

(** A JavaScript number, as far as this program produces them: the result of
    [parseInt] on a string is an integer or [NaN].  Integers are exact here;
    they are exact in the program as long as they stay below 2^53, which four
    hexadecimal digits do. *)
Inductive number : Type :=
| NaN
| Int (z : Z).

Inductive value : Type :=
| Undefined
| Str (s : string)
| Num (n : number).

(** [Number.prototype.toString(10)] on integers, and on [NaN]. *)
Definition number_to_string (n : number) : string :=
  match n with
  | NaN => "NaN"
  | Int z => NilZero.string_of_int (Z.to_int z)
  end.

(** The abstract operation ToString. *)
Definition ToString (v : value) : string :=
  match v with
  | Undefined => "undefined"
  | Str s => s
  | Num n => number_to_string n
  end.

(** The binary [+]: concatenation as soon as one operand is a string;
    otherwise both operands are numbers or [undefined], [undefined] counts
    as [NaN], and [NaN] absorbs. *)
Definition add (a b : value) : value :=
  match a, b with
  | Str _, _ | _, Str _ => Str (ToString a +:+ ToString b)
  | Num (Int x), Num (Int y) => Num (Int (x + y)%Z)
  | _, _ => Num NaN
  end.

(** [v === s] for a string literal [s]. *)
Definition strict_eq_string (v : value) (s : string) : bool :=
  match v with
  | Str t => if string_dec t s then true else false
  | _ => false
  end.

(** [a[i]] on an array of strings: [undefined] out of range. *)
Definition array_get (a : list string) (i : nat) : value :=
  match a !! i with
  | Some s => Str s
  | None => Undefined
  end.

(** [s[i]] on a string: the one-character string, [undefined] out of range. *)
Definition string_get (s : string) (i : nat) : value :=
  match String.get i s with
  | Some c => Str (String c "")
  | None => Undefined
  end.

(** *** parseInt(_, 16) *)

(** White space that [parseInt] skips, among the characters of one
    byte: tab, line feed, vertical tab, form feed, carriage return and
    space. *)
Definition is_white_space (c : ascii) : bool :=
  let n := N_of_ascii c in
  ((9 <=? n) && (n <=? 13) || (n =? 32))%N.

Fixpoint trim_start (s : string) : string :=
  match s with
  | String c s' => if is_white_space c then trim_start s' else s
  | EmptyString => s
  end.

Definition hex_digit_value (c : ascii) : option Z :=
  let n := Z.of_N (N_of_ascii c) in
  if ((48 <=? n) && (n <=? 57))%Z then Some (n - 48)%Z          (* 0-9 *)
  else if ((97 <=? n) && (n <=? 102))%Z then Some (n - 87)%Z    (* a-f *)
  else if ((65 <=? n) && (n <=? 70))%Z then Some (n - 55)%Z     (* A-F *)
  else None.

(** The values of the longest prefix of [s] made of hexadecimal digits. *)
Fixpoint digits_prefix (s : string) : list Z :=
  match s with
  | String c s' =>
      match hex_digit_value c with
      | Some d => d :: digits_prefix s'
      | None => []
      end
  | EmptyString => []
  end.

Definition math_int (ds : list Z) : Z :=
  fold_left (fun acc d => (16 * acc + d)%Z) ds 0%Z.

Definition strip_sign (s : string) : Z * string :=
  match s with
  | String "-" s' => ((-1)%Z, s')
  | String "+" s' => (1%Z, s')
  | _ => (1%Z, s)
  end.

Definition strip_0x (s : string) : string :=
  match s with
  | String "0" (String "x" s') => s'
  | String "0" (String "X" s') => s'
  | _ => s
  end.

Definition parseInt16_string (input : string) : number :=
  let '(sign, s) := strip_sign (trim_start input) in
  match digits_prefix (strip_0x s) with
  | [] => NaN
  | ds => Int (sign * math_int ds)%Z
  end.

Definition parseInt16 (v : value) : number :=
  parseInt16_string (ToString v).

(** *** Number.prototype.toString(2) *)

Fixpoint binary_of_positive (p : positive) : string :=
  match p with
  | xH => "1"
  | xO q => binary_of_positive q +:+ "0"
  | xI q => binary_of_positive q +:+ "1"
  end.

Definition toString2 (n : number) : string :=
  match n with
  | NaN => "NaN"
  | Int Z0 => "0"
  | Int (Zpos p) => binary_of_positive p
  | Int (Zneg p) => "-" +:+ binary_of_positive p
  end.

(** [s.substr(start)] without a length: from [start] to the end, a negative
    [start] counting from the end of the string. *)
Definition substr (s : string) (start : Z) : string :=
  let len := Z.of_nat (String.length s) in
  let from :=
    if (start <? 0)%Z then Z.max (len + start) 0 else Z.min start len in
  String.substring (Z.to_nat from) (Z.to_nat (len - from)%Z) s.

End Js.

(** ** The measurement decoder

    [convertBloodPressure] (lines 142-179 of the controller) with its
    helpers [pulseRateConvert] (185-196), [HSDConvert] (202-213), [hex2bin]
    (219-221) and [base64ToHex] (228-237). *)

Module Decoder.
Import Js.

(** [interface Measurement]: twelve numbers and six status texts. *)
Record Measurement : Type := {
  header : number;
  systolic : number;
  diastolic : number;
  meanArterialPressure : number;
  year : number;
  month : number;
  day : number;
  hours : number;
  minutes : number;
  seconds : number;
  pulseRate : number;
  userID : number;
  bodyMovement : string;
  cuffFit : string;
  irregularPulse : string;
  pulseRateRange : string;
  measurementPosition : string;
  HSD : string
}.

(** [switch (binary)] compares with [===]; anything but the three listed
    strings falls to [default]. *)
Definition pulseRateConvert (binary : value) : string :=
  if strict_eq_string binary "00" then "In range"
  else if strict_eq_string binary "01" then "Exceeds upper limit"
  else if strict_eq_string binary "10" then "Below lower limit"
  else "Undefined".

Definition HSDConvert (binary : value) : string :=
  if strict_eq_string binary "00" then "HSD not detected"
  else if strict_eq_string binary "01" then "HSD detected"
  else if strict_eq_string binary "10" then "Unable to judge"
  else "Undefined".

(** [('00000000' + parseInt(hexOneByte, 16).toString(2)).substr(-8)] *)
Definition hex2bin (hexOneByte : value) : string :=
  substr ("00000000" +:+ toString2 (parseInt16 hexOneByte)) (-8).

(** The [console.log] of the result is left out: it does not change what is
    returned. *)
Definition convertBloodPressure (hexArray : list string) : Measurement :=
  let at_ := array_get hexArray in
  let statusFlagsOne := hex2bin (at_ 17%nat) in
  let flag := string_get statusFlagsOne in
  {| header := parseInt16 (at_ 0%nat);
     systolic := parseInt16 (add (at_ 2%nat) (at_ 1%nat));
     diastolic := parseInt16 (add (at_ 4%nat) (at_ 3%nat));
     meanArterialPressure := parseInt16 (at_ 5%nat);
     year := parseInt16 (add (at_ 8%nat) (at_ 7%nat));
     month := parseInt16 (at_ 9%nat);
     day := parseInt16 (at_ 10%nat);
     hours := parseInt16 (at_ 11%nat);
     minutes := parseInt16 (at_ 12%nat);
     seconds := parseInt16 (at_ 13%nat);
     pulseRate := parseInt16 (add (at_ 15%nat) (at_ 14%nat));
     userID := parseInt16 (at_ 16%nat);
     bodyMovement :=
       if strict_eq_string (flag 0%nat) "0"
       then "No body movement" else "Body movement";
     cuffFit :=
       if strict_eq_string (flag 1%nat) "0"
       then "Cuff fits properly" else "Cuff is too loose";
     irregularPulse :=
       if strict_eq_string (flag 2%nat) "0"
       then "No irregular pulse" else "Irregular pulse";
     pulseRateRange := pulseRateConvert (add (flag 3%nat) (flag 4%nat));
     measurementPosition :=
       if strict_eq_string (flag 5%nat) "0"
       then "Proper position" else "Improper position";
     HSD := HSDConvert (add (flag 6%nat) (flag 7%nat)) |}.

(** *** From the notified bytes to the array of hexadecimal strings *)

Definition byte_value (b : byte) : Z := Z.of_N (Byte.to_N b).

(** One digit of [Buffer.prototype.toString('hex')], which writes lower
    case. *)
Definition hex_char (d : Z) : ascii :=
  match String.get (Z.to_nat d) "0123456789abcdef" with
  | Some c => c
  | None => "0"%char
  end.

Definition byte_to_hex (b : byte) : string :=
  String (hex_char (byte_value b / 16))
    (String (hex_char (byte_value b mod 16)) "").

Fixpoint buffer_to_hex (bytes : list byte) : string :=
  match bytes with
  | [] => ""
  | b :: rest => byte_to_hex b +:+ buffer_to_hex rest
  end.

(** The loop [for (i = 0; i < hexString.length; i += 2)
    array.push(hexString.substring(i, i + 2))]: the string is cut in pieces
    of two characters, the last one shorter when the length is odd. *)
Fixpoint hex_pairs (hexString : string) : list string :=
  match hexString with
  | "" => []
  | String a "" => [String a ""]
  | String a (String b rest) => String a (String b "") :: hex_pairs rest
  end.

(** The decoder on the bytes carried by one notification: what
    [convertBloodPressure(base64ToHex(value))] computes once
    [Buffer.from(value, 'base64')] has produced [frame]. *)
Definition decode (frame : list byte) : Measurement :=
  convertBloodPressure (hex_pairs (buffer_to_hex frame)).

Section Base64.
(** [Buffer.from(_, 'base64')] belongs to the [buffer] package; the
    controller only relies on it returning bytes. *)
Variable Buffer_from_base64 : string -> list byte.

Definition base64ToHex (base64 : option string) : list string :=
  match base64 with
  | Some text => hex_pairs (buffer_to_hex (Buffer_from_base64 text))
  | None => []
  end.
End Base64.

End Decoder.

(** ** What the controller sees of the BLE library *)

Module Ble.

Record BleError : Type := { errorCode : Z; message : string }.

(** A scanned device; [name] is [string | null] in the library. *)
Record Device : Type := { id : string; name : option string }.

(** A notified characteristic; [value] is a base64 text or [null]. *)
Record Characteristic : Type := { value : option string }.

(** The state of a promise whose fulfilment value is of type [A]. *)
Inductive promise (A : Type) : Type :=
| Pending
| Fulfilled (a : A)
| Rejected (e : BleError).
Arguments Pending {A}.
Arguments Fulfilled {A} a.
Arguments Rejected {A} e.

(** [resolve(a)] and [reject(e)] of a promise executor: only a pending
    promise changes. *)
Definition resolve {A} (a : A) (p : promise A) : promise A :=
  match p with Pending => Fulfilled a | _ => p end.

Definition reject {A} (e : BleError) (p : promise A) : promise A :=
  match p with Pending => Rejected e | _ => p end.

End Ble.

(** ** startScan and stopScan

    [startScan] (lines 64-77) wraps the callback of the library's
    [startDeviceScan] in a promise; [stopScan] (80-82) stops the scan. *)

Module Scanner.
Import Ble.

Definition deviceName : string := "BM77".

(** The scan as the controller and the library hold it: whether the
    library still has the scan listener installed, how often
    [stopDeviceScan] was called, and the promise [startScan] returned. *)
Record scan : Type := {
  scanning : bool;
  stop_calls : nat;
  found : promise Device
}.

Definition stopDeviceScan (s : scan) : scan :=
  {| scanning := false; stop_calls := S (stop_calls s); found := found s |}.

Definition settle (f : promise Device -> promise Device) (s : scan) : scan :=
  {| scanning := scanning s; stop_calls := stop_calls s;
     found := f (found s) |}.

(** [device?.name === this.deviceName] *)
Definition name_matches (device : option Device) : bool :=
  match device with
  | Some d =>
      match name d with
      | Some n => if string_dec n deviceName then true else false
      | None => false
      end
  | None => false
  end.

(** The listener given to [startDeviceScan]: two [if]s in sequence, the
    first without [return]. *)
Definition listener (error : option BleError) (device : option Device)
    (s : scan) : scan :=
  let s1 :=
    match error with
    | Some e => settle (reject e) (stopDeviceScan s)
    | None => s
    end in
  match device with
  | Some d =>
      if name_matches device then settle (resolve d) (stopDeviceScan s1)
      else s1
  | None => s1
  end.

(** [startScan()]: a fresh pending promise and an unfiltered scan. *)
Definition startScan : scan :=
  {| scanning := true; stop_calls := 0; found := Pending |}.

Definition stopScan (s : scan) : scan := stopDeviceScan s.

(** One callback of the library: an error or an advertisement.  The library
    calls the listener only while it is installed. *)
Definition advert : Type := (option BleError * option Device)%type.

Definition deliver (s : scan) (a : advert) : scan :=
  if scanning s then listener (fst a) (snd a) s else s.

Definition deliver_all (s : scan) (adverts : list advert) : scan :=
  fold_left deliver adverts s.

(** An advertisement of a device that is not the target and carries no
    error. *)
Definition other_device (a : advert) : Prop :=
  fst a = None /\ name_matches (snd a) = false.

End Scanner.

(** ** connect and discoverWithDelay

    [connect] (lines 84-95) and [discoverWithDelay] (99-107).  [connect] is
    an [async] method: it runs until an [await], and resumes when the
    awaited promise settles.  The model keeps, for every invocation,
    the promises its code creates or awaits, and advances an invocation when
    the library or the timer queue calls back.  Continuations that the
    JavaScript job queue runs before anything else can happen are run in the
    same step.  The listener registered by [device.onDisconnected] stays
    registered: [connect] drops the subscription it would need to remove
    it, and the library calls a listener on every disconnection of the
    device. *)

Module Connection.
Import Ble.

Inductive ConnectionStatus : Type := CONNECTED | DISCONNECTED.

(** The second argument of [setTimeout] in [discoverWithDelay],
    milliseconds. *)
Definition settling_delay : N := 1600.

(** One invocation of [connect(device, onDisconnect)]. *)
Record call : Type := {
  device_connect : promise unit;          (* device.connect() *)
  delay : option (promise unit);          (* new Promise(...) of
                                             discoverWithDelay, once made *)
  timer : option N;                       (* due time of the setTimeout
                                             callback while it is armed *)
  discovery : option (promise unit);      (* discoverAllServicesAnd
                                             Characteristics(), once asked *)
  timer_callback : option (promise unit); (* promise of the async arrow
                                             function; nobody holds it *)
  returned : promise unit                 (* the promise connect returned *)
}.

(** What a test harness can observe; [k] is the invocation, [t] the time. *)
Inductive observation : Type :=
| ConnectRequested (k : nat) (t : N)      (* device.connect() is called *)
| Connected (k : nat) (t : N)             (* 'Device was connected' *)
| DiscoverRequested (k : nat) (t : N)     (* discoverAll...() is called *)
| Discovered (k : nat) (t : N)            (* 'Services and characteristics
                                             were discovered' *)
| OnDisconnect (k : nat) (status : ConnectionStatus) (t : N).
                                          (* onDisconnect(status) of k *)

Record world : Type := {
  now : N;
  calls : list call;
  observers : list nat;     (* invocations whose device.onDisconnected
                               listener is registered, in that order *)
  trace : list observation
}.

Definition init : world :=
  {| now := 0; calls := []; observers := []; trace := [] |}.

Definition started : call :=
  {| device_connect := Pending; delay := None; timer := None;
     discovery := None; timer_callback := None; returned := Pending |}.

Definition put (k : nat) (c : call) (obs : list observation) (w : world)
  : world :=
  {| now := now w; calls := <[k := c]> (calls w);
     observers := observers w; trace := trace w ++ obs |}.

(** [connect], up to its first [await]. *)
Definition connect (w : world) : world :=
  {| now := now w; calls := calls w ++ [started];
     observers := observers w;
     trace := trace w ++ [ConnectRequested (length (calls w)) (now w)] |}.

(** [discoverWithDelay], called at time [t]: the executor runs at once, arms
    the timer and returns; the executor has no [reject] parameter. *)
Definition discoverWithDelay (t : N) (c : call) : call :=
  {| device_connect := device_connect c;
     delay := Some Pending;
     timer := Some (t + settling_delay)%N;
     discovery := discovery c;
     timer_callback := timer_callback c;
     returned := returned c |}.

(** [await device.connect()] settles. *)
Definition device_connect_settles (k : nat) (failure : option BleError)
    (w : world) : world :=
  match calls w !! k with
  | Some c =>
      match device_connect c, failure with
      | Pending, None =>
          (* connect resumes: logs, calls discoverWithDelay, awaits it *)
          let c1 :=
            {| device_connect := Fulfilled tt; delay := delay c;
               timer := timer c; discovery := discovery c;
               timer_callback := timer_callback c;
               returned := returned c |} in
          put k (discoverWithDelay (now w) c1) [Connected k (now w)] w
      | Pending, Some e =>
          (* the await throws: connect rejects with the same error *)
          put k {| device_connect := Rejected e; delay := delay c;
                   timer := timer c; discovery := discovery c;
                   timer_callback := timer_callback c;
                   returned := Rejected e |} [] w
      | _, _ => w
      end
  | None => w
  end.

(** The timer queue runs the callback of [setTimeout], not before it is
    due: the arrow function starts and stops at its [await]. *)
Definition timer_fires (k : nat) (w : world) : world :=
  match calls w !! k with
  | Some c =>
      match timer c with
      | Some due =>
          if (due <=? now w)%N then
            put k {| device_connect := device_connect c; delay := delay c;
                     timer := None; discovery := Some Pending;
                     timer_callback := Some Pending;
                     returned := returned c |}
                [DiscoverRequested k (now w)] w
          else w
      | None => w
      end
  | None => w
  end.

(** [connect] after [await this.discoverWithDelay(device)]: registers the
    listener and returns. *)
Definition connect_resumes (k : nat) (c : call) (w : world) : world :=
  {| now := now w;
     calls := <[k := {| device_connect := device_connect c;
                        delay := delay c; timer := timer c;
                        discovery := discovery c;
                        timer_callback := timer_callback c;
                        returned := Fulfilled tt |}]> (calls w);
     observers := observers w ++ [k];
     trace := trace w |}.

(** [await device.discoverAllServicesAndCharacteristics()] settles inside
    the arrow function. *)
Definition discovery_settles (k : nat) (failure : option BleError)
    (w : world) : world :=
  match calls w !! k with
  | Some c =>
      match discovery c, failure with
      | Some Pending, None =>
          (* resolve(result); console.log(...); the arrow function ends;
             then the job queue resumes connect *)
          let c1 :=
            {| device_connect := device_connect c;
               delay := resolve tt <$> delay c;
               timer := timer c; discovery := Some (Fulfilled tt);
               timer_callback := Some (Fulfilled tt);
               returned := returned c |} in
          let w1 := put k c1 [Discovered k (now w)] w in
          match delay c1 with
          | Some (Fulfilled _) => connect_resumes k c1 w1
          | _ => w1
          end
      | Some Pending, Some e =>
          (* the await throws inside the arrow function: its own promise
             rejects, resolve is not reached *)
          put k {| device_connect := device_connect c; delay := delay c;
                   timer := timer c; discovery := Some (Rejected e);
                   timer_callback := Some (Rejected e);
                   returned := returned c |} [] w
      | _, _ => w
      end
  | None => w
  end.

(** The library reports that the device disconnected: every registered
    listener runs. *)
Definition device_disconnected (w : world) : world :=
  {| now := now w; calls := calls w; observers := observers w;
     trace := trace w ++
              map (fun k => OnDisconnect k DISCONNECTED (now w))
                  (observers w) |}.

Definition elapse (d : N) (w : world) : world :=
  {| now := (now w + d)%N; calls := calls w; observers := observers w;
     trace := trace w |}.

(** What can happen to the controller from outside. *)
Inductive event : Type :=
| CallConnect
| DeviceConnectSettles (k : nat) (failure : option BleError)
| Elapse (d : N)
| TimerFires (k : nat)
| DiscoverySettles (k : nat) (failure : option BleError)
| DeviceDisconnected.

Definition step (w : world) (ev : event) : world :=
  match ev with
  | CallConnect => connect w
  | DeviceConnectSettles k failure => device_connect_settles k failure w
  | Elapse d => elapse d w
  | TimerFires k => timer_fires k w
  | DiscoverySettles k failure => discovery_settles k failure w
  | DeviceDisconnected => device_disconnected w
  end.

Definition run (evs : list event) : world := fold_left step evs init.

(** The state of the promise invocation [k] of [connect] returned. *)
Definition outcome (k : nat) (w : world) : option (promise unit) :=
  returned <$> calls w !! k.

Definition is_onDisconnect (k : nat) (o : observation) : bool :=
  match o with
  | OnDisconnect k' _ _ => Nat.eqb k k'
  | _ => false
  end.

(** How often [onDisconnect] of invocation [k] has been called. *)
Definition onDisconnect_count (k : nat) (w : world) : nat :=
  length (filter (fun o => is_onDisconnect k o = true) (trace w)).

(** Discovery has completed for invocation [k]. *)
Definition discovery_complete (k : nat) (w : world) : bool :=
  match discovery <$> calls w !! k with
  | Some (Some (Fulfilled _)) => true
  | _ => false
  end.

End Connection.

(** ** receiveData

    [receiveData] (lines 114-133) opens a monitor on the measurement
    characteristic and gives it a listener that calls back the caller. *)

Module Notifications.
Import Ble Decoder.

Definition service : string := "00001810-0000-1000-8000-00805f9b34fb".
Definition characteristicNotify : string :=
  "00002a35-0000-1000-8000-00805f9b34fb".

(** A call of one of the two callbacks the caller gave to [receiveData];
    [h] is the subscription whose listener made the call. *)
Inductive callback : Type :=
| OnError (h : nat) (e : BleError)
| OnData (h : nat) (m : Measurement).

(** The library's side: the monitors that are open, each on a service and a
    characteristic, and the calls made so far.  A subscription is named by
    its position in [monitors]. *)
Record stack : Type := {
  monitors : list (string * string);
  calls : list callback
}.

(** What an [async] method hands back once it has run: the value its
    promise is fulfilled with. *)
Inductive result : Type :=
| NoValue                        (* undefined *)
| Subscription (h : nat).

(** [device.monitorCharacteristicForService(service, characteristic,
    listener)]: opens a monitor and returns its subscription. *)
Definition monitorCharacteristicForService (svc chr : string) (s : stack)
  : stack * nat :=
  ({| monitors := monitors s ++ [(svc, chr)]; calls := calls s |},
   length (monitors s)).

(** [receiveData]: the subscription the library returns is not kept, and
    the method has no [return]. *)
Definition receiveData (s : stack) : stack * result :=
  let '(s', _) :=
    monitorCharacteristicForService service characteristicNotify s in
  (s', NoValue).

(** A string is truthy unless it is empty. *)
Definition truthy (text : string) : bool :=
  negb (String.eqb text "").

(** One notification of the library: [(error, result)]. *)
Definition notification : Type :=
  (option BleError * option Characteristic)%type.

Section Listener.
Variable Buffer_from_base64 : string -> list byte.

(** [if (error) ...] *)
Definition error_branch (h : nat) (error : option BleError)
  : list callback :=
  match error with
  | Some e => [OnError h e]
  | None => []
  end.

(** [if (result?.value) ...] *)
Definition value_branch (h : nat) (result : option Characteristic)
  : list callback :=
  match result ≫= value with
  | Some text =>
      if truthy text then
        let measurementInHex := base64ToHex Buffer_from_base64 (Some text) in
        [OnData h (convertBloodPressure measurementInHex)]
      else []
  | None => []
  end.

(** The listener [receiveData] gives to the library, for subscription
    [h]. *)
Definition listener (h : nat) (n : notification) : list callback :=
  error_branch h (fst n) ++ value_branch h (snd n).

(** The library delivers one notification to subscription [h]. *)
Definition notify (h : nat) (s : stack) (n : notification) : stack :=
  match monitors s !! h with
  | Some _ =>
      {| monitors := monitors s; calls := calls s ++ listener h n |}
  | None => s
  end.

Definition notify_all (h : nat) (s : stack) (ns : list notification)
  : stack :=
  fold_left (notify h) ns s.
End Listener.

Definition no_monitor : stack := {| monitors := []; calls := [] |}.

End Notifications.

(** ** The configuration check

    [Help.checkBleConfig] and [Help.requestLocationPermission] of
    [src/helpers.ts].  Both are [async]; they ask the platform at most two
    questions, whose answers are given here as an environment, and the
    model records which questions were asked. *)

Module Help.
Import Ble.

(** [Platform.OS] *)
Inductive OS : Type := android | ios | macos | windows | web.

(** [PermissionsAndroid.RESULTS] *)
Inductive PermissionStatus : Type := GRANTED | DENIED | NEVER_ASK_AGAIN.

(** [State] of the BLE library. *)
Inductive State : Type :=
| Unknown | Resetting | Unsupported | Unauthorized | PoweredOff | PoweredOn.

(** How an awaited library call ends. *)
Inductive reply (A : Type) : Type :=
| Resolves (a : A)
| Fails (e : BleError).
Arguments Resolves {A} a.
Arguments Fails {A} e.

Record environment : Type := {
  platform : OS;
  permission : option PermissionStatus;
                      (* what PermissionsAndroid.request resolves with;
                         None when it rejects *)
  bluetooth : reply State           (* bleManager.state() *)
}.

Inductive question : Type := RequestPermission | QueryState.

(** What is thrown: [new Error(message)] or an error of the library. *)
Inductive thrown : Type :=
| JsError (message : string)
| LibraryError (e : BleError).

Inductive completion (A : Type) : Type :=
| Returned (a : A)
| Threw (t : thrown).
Arguments Returned {A} a.
Arguments Threw {A} t.

Definition activate_bluetooth : string := "Please, activate your bluetooth".

Definition give_permission : string :=
  "Please, give a location permission. Otherwise, bluetooth connection is not possible.".

(** The [try] returns whether the answer is [GRANTED]; the [catch] returns
    [false]. *)
Definition requestLocationPermission (env : environment)
  : bool * list question :=
  (match permission env with
   | Some GRANTED => true
   | Some _ => false
   | None => false
   end, [RequestPermission]).

Definition is_android (os : OS) : bool :=
  match os with android => true | _ => false end.

Definition is_ios (os : OS) : bool :=
  match os with ios => true | _ => false end.

Definition checkBleConfig (env : environment)
  : completion bool * list question :=
  let '(isGranted, asked) :=
    if is_android (platform env) then requestLocationPermission env
    else (false, []) in
  if isGranted || is_ios (platform env) then
    match bluetooth env with
    | Resolves PoweredOn => (Returned true, asked ++ [QueryState])
    | Resolves _ => (Threw (JsError activate_bluetooth), asked ++ [QueryState])
    | Fails e => (Threw (LibraryError e), asked ++ [QueryState])
    end
  else (Threw (JsError give_permission), asked).

End Help.

(** ** The screen

    The handlers of [App.tsx] that call the controller: what they leave in
    the state of the component once the promise they await has settled, or
    while it has not. *)

Module App.
Import Ble Decoder.

(** [enum BleState] *)
Inductive BleState : Type :=
| SCAN | SCANNING | FOUND | CONNECTING | CONNECTED | RECEIVING
| DISCONNECTED.

Record screen : Type := {
  state : BleState;
  errorMsg : string;
  measurements : list Measurement;
  device : option Device
}.

Definition initial : screen :=
  {| state := DISCONNECTED; errorMsg := ""; measurements := [];
     device := None |}.

Definition setState (b : BleState) (s : screen) : screen :=
  {| state := b; errorMsg := errorMsg s; measurements := measurements s;
     device := device s |}.

Definition setErrorMsg (text : string) (s : screen) : screen :=
  {| state := state s; errorMsg := text; measurements := measurements s;
     device := device s |}.

Definition setDevice (d : Device) (s : screen) : screen :=
  {| state := state s; errorMsg := errorMsg s;
     measurements := measurements s; device := Some d |}.

(** [e.message], for what the handlers catch. *)
Definition message_of (t : Help.thrown) : string :=
  match t with
  | Help.JsError text => text
  | Help.LibraryError e => message e
  end.

(** The handler of "Start scan", given the answers of the platform and the
    state of the promise of [startScan]; the scan is started only when the
    configuration check returned. *)
Definition start_scan_pressed (env : Help.environment)
    (scan : promise Device) (s : screen) : screen :=
  let s1 := setState SCANNING s in
  match fst (Help.checkBleConfig env) with
  | Help.Threw t => setErrorMsg (message_of t) s1
  | Help.Returned _ =>
      match scan with
      | Fulfilled d => setState FOUND (setDevice d s1)
      | Rejected e => setErrorMsg (message e) s1
      | Pending => s1
      end
  end.

(** The handler of "Connect to ...", given the state of the promise of
    [connect]: the [catch] shows the message of a [BleError], and
    [setState(CONNECTED)] follows the [try] in both cases. *)
Definition connect_pressed (outcome : promise unit) (s : screen) : screen :=
  match device s with
  | Some _ =>
      let s1 := setState CONNECTING s in
      match outcome with
      | Pending => s1
      | Fulfilled _ => setState CONNECTED s1
      | Rejected e => setState CONNECTED (setErrorMsg (message e) s1)
      end
  | None => s
  end.

(** The two callbacks "Receive Data" gives to [receiveData]. *)
Definition onError (e : BleError) (s : screen) : screen :=
  if (errorCode e =? 201)%Z then setErrorMsg (message e) s else s.

Definition onData (m : Measurement) (s : screen) : screen :=
  {| state := state s; errorMsg := errorMsg s;
     measurements := measurements s ++ [m]; device := device s |}.

(** A call the controller makes on one of the two callbacks. *)
Definition call_back (s : screen) (c : Notifications.callback) : screen :=
  match c with
  | Notifications.OnError _ e => onError e s
  | Notifications.OnData _ m => onData m s
  end.

(** The handler of "Receive Data". *)
Definition receive_data_pressed (s : screen) (st : Notifications.stack)
  : screen * Notifications.stack :=
  match device s with
  | Some _ => (setState RECEIVING s, fst (Notifications.receiveData st))
  | None => (s, st)
  end.

End App.

(** * Properties *)

(** ** Notions the statements use *)

Module Frame.
Import Js Decoder.

(** What matters of a hexadecimal digit written by [hex_char]: its value, and
    that it is neither white space, nor a sign, nor the [x] of a prefix. *)
Definition plain_digit (c : ascii) (d : Z) : Prop :=
  hex_digit_value c = Some d /\ is_white_space c = false /\
  (forall s, strip_sign (String c s) = (1, String c s)) /\
  (forall c0 s, strip_0x (String c0 (String c s)) = String c0 (String c s)).

Fixpoint hex_text (ds : list Z) : string :=
  match ds with
  | [] => ""
  | d :: rest => String (hex_char d) (hex_text rest)
  end.

(** The byte at offset [i] of a frame, as a number; [NaN] when the frame is
    too short to have it. *)
Definition u8 (frame : list byte) (i : nat) : number :=
  match frame !! i with
  | Some b => Int (byte_value b)
  | None => NaN
  end.

(** The little-endian 16-bit number at offsets [i] (low byte) and [i + 1]
    (high byte); [NaN] when the frame is too short to have both. *)
Definition u16le (frame : list byte) (i : nat) : number :=
  match frame !! i, frame !! S i with
  | Some lo, Some hi => Int (byte_value lo + 256 * byte_value hi)
  | _, _ => NaN
  end.

(** The byte at offset [i] of a frame that has it. *)
Definition byte_at (frame : list byte) (i : nat) : Z :=
  byte_value (nth i frame x00).

(** Bit [i] of a byte when bit 0 is the most significant one and bit 7 the
    least significant one. *)
Definition bit (b : byte) (i : Z) : bool := Z.testbit (byte_value b) (7 - i).

Definition bit_char (t : bool) : ascii := if t then "1"%char else "0"%char.

(** The eight binary digits of a byte, most significant first. *)
Definition bits8 (b : byte) : string :=
  String (bit_char (bit b 0)) (String (bit_char (bit b 1))
  (String (bit_char (bit b 2)) (String (bit_char (bit b 3))
  (String (bit_char (bit b 4)) (String (bit_char (bit b 5))
  (String (bit_char (bit b 6)) (String (bit_char (bit b 7)) ""))))))).

(** The table of a one-bit status field. *)
Definition one_bit (t : bool) (zero one : string) : string :=
  if t then one else zero.

(** The table of a two-bit status field: codes 00, 01, 10 and 11, the first
    digit of the code being [hi]. *)
Definition two_bits (hi lo : bool) (t00 t01 t10 t11 : string) : string :=
  match hi, lo with
  | false, false => t00
  | false, true => t01
  | true, false => t10
  | true, true => t11
  end.

(** The frame of the round-trip example of the specification. *)
Definition example_frame : list byte :=
  [x00; x78; x00; x50; x00; x00; x00; xe7; x07; x06;
   x0f; x0a; x1e; x00; x48; x00; x00; x00; x00; x00].

End Frame.

Module Sessions.
Import Ble Connection.

(** The six shapes an invocation of [connect] can have. *)
Definition refused (e : BleError) : call :=
  {| device_connect := Rejected e; delay := None; timer := None;
     discovery := None; timer_callback := None; returned := Rejected e |}.

Definition settling (due : N) : call :=
  {| device_connect := Fulfilled tt; delay := Some Pending;
     timer := Some due; discovery := None; timer_callback := None;
     returned := Pending |}.

Definition discovering : call :=
  {| device_connect := Fulfilled tt; delay := Some Pending; timer := None;
     discovery := Some Pending; timer_callback := Some Pending;
     returned := Pending |}.

Definition stuck (e : BleError) : call :=
  {| device_connect := Fulfilled tt; delay := Some Pending; timer := None;
     discovery := Some (Rejected e); timer_callback := Some (Rejected e);
     returned := Pending |}.

Definition established : call :=
  {| device_connect := Fulfilled tt; delay := Some (Fulfilled tt);
     timer := None; discovery := Some (Fulfilled tt);
     timer_callback := Some (Fulfilled tt); returned := Fulfilled tt |}.

Inductive phase : call -> Prop :=
| phase_started : phase started
| phase_refused e : phase (refused e)
| phase_settling due : phase (settling due)
| phase_discovering : phase discovering
| phase_stuck e : phase (stuck e)
| phase_established : phase established.

(** What holds of every world the controller can reach. *)
Record sound (w : world) : Prop := {
  sound_phases :
    forall k c, calls w !! k = Some c -> phase c;
  sound_nodup : NoDup (observers w);
  sound_observers :
    forall k : nat, k ∈ observers w <-> calls w !! k = Some established;
  sound_timer :
    forall k due, calls w !! k = Some (settling due) ->
      exists j t, trace w !! j = Some (Connected k t) /\
                  due = (t + settling_delay)%N;
  sound_discover :
    forall i k t', trace w !! i = Some (DiscoverRequested k t') ->
      exists j t, (j < i)%nat /\ trace w !! j = Some (Connected k t) /\
                  (t + settling_delay <= t')%N;
  sound_established :
    forall k, calls w !! k = Some established ->
      exists j t, trace w !! j = Some (Discovered k t);
  sound_onDisconnect :
    forall i k s t, trace w !! i = Some (OnDisconnect k s t) ->
      s = DISCONNECTED /\
      exists j t0, (j < i)%nat /\ trace w !! j = Some (Discovered k t0)
}.

(** One session in which discovery fails with [e]. *)
Definition failing_discovery (e : BleError) : list event :=
  [CallConnect; DeviceConnectSettles 0 None; Elapse 1600; TimerFires 0;
   DiscoverySettles 0 (Some e)].

(** One full session of invocation [k], up to the disconnection. *)
Definition session (k : nat) : list event :=
  [CallConnect; DeviceConnectSettles k None; Elapse 1600; TimerFires k;
   DiscoverySettles k None; DeviceDisconnected].

(** A session, then a second one on the same device handle. *)
Definition reconnect : list event := (session 0 ++ session 1)%list.

Definition timeout_error : BleError :=
  {| errorCode := 3; message := "Operation timed out" |}.

End Sessions.

Module Ranges.
Import Js Decoder.

(** A number that is an integer from 0 up to, not including, [bound]. *)
Definition below (bound : Z) (n : number) : Prop :=
  exists z, n = Int z /\ 0 <= z < bound.

(** The pieces of a text put back together. *)
Definition join (pieces : list string) : string :=
  fold_right String.append "" pieces.

(** The offsets of a frame the decoder reads. *)
Definition read_offset (i : nat) : Prop := (i < 18)%nat /\ i <> 6%nat.

End Ranges.

Module Tally.
Import Ble Connection Sessions.

(** The observations that are counted per invocation. *)
Inductive kind : Type :=
| ConnectRequests
| Connections
| DiscoverRequests
| Discoveries.

Definition is_kind (kd : kind) (k : nat) (o : observation) : bool :=
  match kd, o with
  | ConnectRequests, ConnectRequested k' _ => Nat.eqb k k'
  | Connections, Connected k' _ => Nat.eqb k k'
  | DiscoverRequests, DiscoverRequested k' _ => Nat.eqb k k'
  | Discoveries, Discovered k' _ => Nat.eqb k k'
  | _, _ => false
  end.

Definition tally (kd : kind) (k : nat) (obs : list observation) : nat :=
  length (filter (fun o => is_kind kd k o = true) obs).

(** How many observations of a kind invocation [k] has caused. *)
Definition occurrences (kd : kind) (k : nat) (w : world) : nat :=
  tally kd k (trace w).

(** The same number, read off the promises of the invocation. *)
Definition expected (kd : kind) (c : option call) : nat :=
  match c with
  | None => 0
  | Some c =>
      match kd with
      | ConnectRequests => 1
      | Connections =>
          match device_connect c with Fulfilled _ => 1 | _ => 0 end
      | DiscoverRequests =>
          match discovery c with Some _ => 1 | None => 0 end
      | Discoveries =>
          match discovery c with Some (Fulfilled _) => 1 | _ => 0 end
      end
  end.

Definition time_of (o : observation) : N :=
  match o with
  | ConnectRequested _ t | Connected _ t | DiscoverRequested _ t
  | Discovered _ t | OnDisconnect _ _ t => t
  end.

Record tidy (w : world) : Prop := {
  tidy_clock :
    forall i o, trace w !! i = Some o -> (time_of o <= now w)%N;
  tidy_counts :
    forall kd k, occurrences kd k w = expected kd (calls w !! k);
  tidy_discovering :
    forall k, calls w !! k = Some discovering ->
      exists j t, trace w !! j = Some (DiscoverRequested k t);
  tidy_discovered :
    forall i k t', trace w !! i = Some (Discovered k t') ->
      exists j t, (j < i)%nat /\
                  trace w !! j = Some (DiscoverRequested k t) /\
                  (t <= t')%N
}.

(** A first invocation whose connection is refused with [e]. *)
Definition refused_connection (e : BleError) : list event :=
  [CallConnect; DeviceConnectSettles 0 (Some e)].

End Tally.

Module Shown.
Import Ble Help Notifications.

(** The platform lets the configuration check reach the Bluetooth state:
    iOS, or Android with the location permission granted. *)
Definition permitted (env : environment) : Prop :=
  platform env = ios \/
  (platform env = android /\ permission env = Some GRANTED).

(** The base64 texts of the notifications that carry a value. *)
Fixpoint payloads (ns : list notification) : list string :=
  match ns with
  | [] => []
  | (_, Some {| value := Some text |}) :: rest =>
      if String.eqb text "" then payloads rest else text :: payloads rest
  | _ :: rest => payloads rest
  end.

(** The message of the last error with code 201 among the notifications,
    [shown] when there is none. *)
Fixpoint last_disconnect_message (shown : string) (ns : list notification)
  : string :=
  match ns with
  | [] => shown
  | (Some e, _) :: rest =>
      last_disconnect_message
        (if (errorCode e =? 201)%Z then message e else shown) rest
  | (None, _) :: rest => last_disconnect_message shown rest
  end.

End Shown.

(** ** The decoder *)

Section DecoderFacts.
Import Js Decoder Frame.

(** Cutting the hexadecimal text of a buffer in pairs gives back one string
    per byte. *)
Lemma hex_pairs_buffer (frame : list byte) :
  hex_pairs (buffer_to_hex frame) = map byte_to_hex frame.
Proof.
  induction frame as [|b rest IH]; [reflexivity|].
  cbn [buffer_to_hex map]. unfold byte_to_hex at 1.
  change (hex_pairs (String ?a (String ?c "") +:+ ?s))
    with (String a (String c "") :: hex_pairs s).
  now rewrite IH.
Qed.

Lemma array_get_hex (frame : list byte) (i : nat) :
  array_get (map byte_to_hex frame) i =
  match frame !! i with
  | Some b => Str (byte_to_hex b)
  | None => Undefined
  end.
Proof.
  unfold array_get.
  change (map byte_to_hex frame) with (byte_to_hex <$> frame).
  rewrite list_lookup_fmap. now destruct (frame !! i).
Qed.

Lemma byte_value_range (b : byte) : 0 <= byte_value b < 256.
Proof.
  unfold byte_value. pose proof (Byte.to_N_bounded b) as H. lia.
Qed.

Lemma hex_char_plain (d : Z) : 0 <= d < 16 -> plain_digit (hex_char d) d.
Proof.
  intros Hd.
  assert (Hcases : In d [0;1;2;3;4;5;6;7;8;9;10;11;12;13;14;15]).
  { cbn [In]. lia. }
  cbn [In] in Hcases.
  repeat (destruct Hcases as [<-|Hcases];
    [repeat split; intros; try reflexivity;
     match goal with
     | c0 : ascii |- _ =>
         destruct c0 as [[] [] [] [] [] [] [] []]; reflexivity
     end|]).
  contradiction.
Qed.

Lemma digits_prefix_hex_text (ds : list Z) :
  Forall (fun d => 0 <= d < 16) ds -> digits_prefix (hex_text ds) = ds.
Proof.
  induction 1 as [|d rest Hd _ IH]; [reflexivity|].
  destruct (hex_char_plain d Hd) as (Hv & _).
  cbn [hex_text digits_prefix]. now rewrite Hv, IH.
Qed.

(** [parseInt(_, 16)] on a text of at least two digits written by
    [hex_char] reads all of them. *)
Lemma parseInt16_hex_text (d1 d2 : Z) (ds : list Z) :
  Forall (fun d => 0 <= d < 16) (d1 :: d2 :: ds) ->
  parseInt16_string (hex_text (d1 :: d2 :: ds)) =
  Int (math_int (d1 :: d2 :: ds)).
Proof.
  intros Hall.
  pose proof (digits_prefix_hex_text _ Hall) as Hpre.
  inversion Hall as [|? ? H1 Hrest]; subst.
  inversion Hrest as [|? ? H2 _]; subst.
  destruct (hex_char_plain d1 H1) as (_ & Hws & Hsign & _).
  destruct (hex_char_plain d2 H2) as (_ & _ & _ & Hx).
  unfold parseInt16_string. cbn [hex_text trim_start] in *.
  rewrite Hws, Hsign, Hx, Hpre.
  f_equal. lia.
Qed.

Ltac all_digits :=
  repeat first
    [ apply List.Forall_nil
    | apply List.Forall_cons; [assumption|] ].

Lemma nibbles (b : byte) :
  0 <= byte_value b / 16 < 16 /\ 0 <= byte_value b mod 16 < 16.
Proof.
  pose proof (byte_value_range b) as Hb. split.
  - split; [apply Z.div_pos; lia | apply Z.div_lt_upper_bound; lia].
  - apply Z.mod_pos_bound. lia.
Qed.

(** A direct field: one byte read as a number. *)
Lemma parse_byte (b : byte) :
  parseInt16 (Str (byte_to_hex b)) = Int (byte_value b).
Proof.
  destruct (nibbles b) as [Hhi Hlo].
  change (parseInt16 (Str (byte_to_hex b))) with
    (parseInt16_string
       (hex_text [byte_value b / 16; byte_value b mod 16])).
  rewrite parseInt16_hex_text by all_digits.
  f_equal. unfold math_int. cbn [fold_left].
  pose proof (Z.div_mod (byte_value b) 16). lia.
Qed.

(** A 16-bit field: the text of the high byte followed by the text of the
    low byte. *)
Lemma parse_pair (lo hi : byte) :
  parseInt16 (add (Str (byte_to_hex hi)) (Str (byte_to_hex lo))) =
  Int (byte_value lo + 256 * byte_value hi).
Proof.
  destruct (nibbles lo) as [Hlh Hll]. destruct (nibbles hi) as [Hhh Hhl].
  change (parseInt16 (add (Str (byte_to_hex hi)) (Str (byte_to_hex lo))))
    with (parseInt16_string
            (hex_text [byte_value hi / 16; byte_value hi mod 16;
                       byte_value lo / 16; byte_value lo mod 16])).
  rewrite parseInt16_hex_text by all_digits.
  f_equal. unfold math_int. cbn [fold_left].
  pose proof (Z.div_mod (byte_value lo) 16).
  pose proof (Z.div_mod (byte_value hi) 16). lia.
Qed.

Lemma field_u8 (frame : list byte) (i : nat) :
  parseInt16 (array_get (map byte_to_hex frame) i) = u8 frame i.
Proof.
  rewrite array_get_hex. unfold u8.
  destruct (frame !! i); [apply parse_byte | reflexivity].
Qed.

Lemma field_u16le (frame : list byte) (i : nat) :
  parseInt16 (add (array_get (map byte_to_hex frame) (S i))
                  (array_get (map byte_to_hex frame) i)) = u16le frame i.
Proof.
  rewrite !array_get_hex. unfold u16le.
  destruct (frame !! i) as [lo|] eqn:Hlo;
    destruct (frame !! S i) as [hi|] eqn:Hhi.
  - apply parse_pair.
  - reflexivity.
  - apply lookup_ge_None in Hlo. apply lookup_lt_Some in Hhi. lia.
  - reflexivity.
Qed.

(** The status byte, written in binary and padded, is its eight bits. *)
Lemma hex2bin_byte (b : byte) : hex2bin (Str (byte_to_hex b)) = bits8 b.
Proof. destruct b; vm_compute; reflexivity. Qed.

Lemma decode_unfold (frame : list byte) :
  decode frame = convertBloodPressure (map byte_to_hex frame).
Proof. unfold decode. now rewrite hex_pairs_buffer. Qed.

(** The decoder reads its array at offsets 0 to 5 and 7 to 17 only. *)
Lemma convertBloodPressure_ext (a a' : list string) :
  (forall i : nat, i <> 6%nat -> a !! i = a' !! i) ->
  convertBloodPressure a = convertBloodPressure a'.
Proof.
  intros Hsame.
  assert (E : forall i : nat, i <> 6%nat -> array_get a i = array_get a' i).
  { intros i Hi. unfold array_get. now rewrite (Hsame i Hi). }
  unfold convertBloodPressure. rewrite !E by lia. reflexivity.
Qed.

Lemma u8_present (frame : list byte) (i : nat) :
  (i < length frame)%nat -> u8 frame i = Int (byte_at frame i).
Proof.
  intros Hi. unfold u8, byte_at.
  destruct (lookup_lt_is_Some_2 frame i Hi) as [b Hb].
  rewrite Hb. f_equal. f_equal. symmetry. now apply nth_lookup_Some.
Qed.

Lemma u16le_present (frame : list byte) (i : nat) :
  (S i < length frame)%nat ->
  u16le frame i = Int (byte_at frame i + 256 * byte_at frame (S i)).
Proof.
  intros Hi. unfold u16le, byte_at.
  destruct (lookup_lt_is_Some_2 frame i) as [lo Hlo]; [lia|].
  destruct (lookup_lt_is_Some_2 frame (S i) Hi) as [hi Hhi].
  rewrite Hlo, Hhi.
  rewrite (nth_lookup_Some _ _ x00 _ Hlo), (nth_lookup_Some _ _ x00 _ Hhi).
  reflexivity.
Qed.

(** C1. On a frame of 20 bytes every numeric field is read at its fixed
    offset: header at 0, systolic at 1-2, diastolic at 3-4, mean arterial
    pressure at 5, year at 7-8, month to seconds at 9 to 13, pulse rate at
    14-15, user at 16, the two-byte fields with their low byte first; and
    replacing byte 6 by any other byte leaves the whole result unchanged. *)
Theorem decode_positional (frame : list byte) :
  length frame = 20%nat ->
  let m := decode frame in
  header m = Int (byte_at frame 0) /\
  systolic m = Int (byte_at frame 1 + 256 * byte_at frame 2) /\
  diastolic m = Int (byte_at frame 3 + 256 * byte_at frame 4) /\
  meanArterialPressure m = Int (byte_at frame 5) /\
  year m = Int (byte_at frame 7 + 256 * byte_at frame 8) /\
  month m = Int (byte_at frame 9) /\
  day m = Int (byte_at frame 10) /\
  hours m = Int (byte_at frame 11) /\
  minutes m = Int (byte_at frame 12) /\
  seconds m = Int (byte_at frame 13) /\
  pulseRate m = Int (byte_at frame 14 + 256 * byte_at frame 15) /\
  userID m = Int (byte_at frame 16) /\
  forall x : byte, decode (<[6%nat := x]> frame) = decode frame.
Proof.
  intros Hlen m. subst m.
  repeat match goal with |- _ /\ _ => split end;
    try (rewrite decode_unfold; unfold convertBloodPressure;
         cbn [header systolic diastolic meanArterialPressure year month day
              hours minutes seconds pulseRate userID];
         rewrite ?field_u8, ?field_u16le;
         rewrite ?u8_present, ?u16le_present by lia; reflexivity).
  intros x. rewrite !decode_unfold. apply convertBloodPressure_ext.
  intros i Hi. change (map byte_to_hex ?l) with (byte_to_hex <$> l).
  rewrite !list_lookup_fmap. now rewrite list_lookup_insert_ne.
Qed.

Lemma decode_positional_witness :
  length example_frame = 20%nat /\
  systolic (decode example_frame) =
    Int (byte_at example_frame 1 + 256 * byte_at example_frame 2).
Proof.
  split; [reflexivity|].
  exact (proj1 (proj2 (decode_positional example_frame eq_refl))).
Defined.

(** C2. Whatever the status byte [b] at offset 17 is, the decoder writes it
    as eight binary digits, bit 0 being the most significant one, and reads
    body movement from bit 0, cuff fit from bit 1, irregular pulse from bit
    2, the pulse-rate range from the code in bits 3-4, the measurement
    position from bit 5 and HSD from the code in bits 6-7, with the texts of
    the table. *)
Theorem status_byte_table (frame : list byte) (b : byte) :
  frame !! 17%nat = Some b ->
  let m := decode frame in
  hex2bin (array_get (hex_pairs (buffer_to_hex frame)) 17) = bits8 b /\
  bodyMovement m = one_bit (bit b 0) "No body movement" "Body movement" /\
  cuffFit m = one_bit (bit b 1) "Cuff fits properly" "Cuff is too loose" /\
  irregularPulse m =
    one_bit (bit b 2) "No irregular pulse" "Irregular pulse" /\
  pulseRateRange m =
    two_bits (bit b 3) (bit b 4)
      "In range" "Exceeds upper limit" "Below lower limit" "Undefined" /\
  measurementPosition m =
    one_bit (bit b 5) "Proper position" "Improper position" /\
  HSD m =
    two_bits (bit b 6) (bit b 7)
      "HSD not detected" "HSD detected" "Unable to judge" "Undefined".
Proof.
  intros H17 m. subst m. rewrite decode_unfold, hex_pairs_buffer.
  unfold convertBloodPressure.
  cbn [bodyMovement cuffFit irregularPulse pulseRateRange
       measurementPosition HSD].
  rewrite array_get_hex, H17, hex2bin_byte. unfold bits8.
  destruct (bit b 0), (bit b 1), (bit b 2), (bit b 3), (bit b 4),
    (bit b 5), (bit b 6), (bit b 7); repeat split; reflexivity.
Qed.

Lemma status_byte_table_witness :
  example_frame !! 17%nat = Some x00 /\
  HSD (decode example_frame) =
    two_bits (bit x00 6) (bit x00 7)
      "HSD not detected" "HSD detected" "Unable to judge" "Undefined".
Proof.
  split; [reflexivity|].
  apply (status_byte_table example_frame x00 eq_refl).
Defined.

(** C3. The frame 00 78 00 50 00 00 00 E7 07 06 0F 0A 1E 00 48 00 00 00 00
    00 decodes to 120/80, 15 June 2023 10:30:00, pulse 72, user 0, and the
    six status fields at their first value. *)
Theorem decode_example_frame :
  let m := decode example_frame in
  systolic m = Int 120 /\ diastolic m = Int 80 /\ year m = Int 2023 /\
  month m = Int 6 /\ day m = Int 15 /\ hours m = Int 10 /\
  minutes m = Int 30 /\ seconds m = Int 0 /\ pulseRate m = Int 72 /\
  userID m = Int 0 /\
  bodyMovement m = "No body movement" /\ cuffFit m = "Cuff fits properly" /\
  irregularPulse m = "No irregular pulse" /\ pulseRateRange m = "In range" /\
  measurementPosition m = "Proper position" /\ HSD m = "HSD not detected".
Proof. vm_compute. repeat split. Qed.

(** The third example of the specification: status byte 10100101. *)
Example decode_status_a5 :
  let m := decode (<[17%nat := xa5]> example_frame) in
  bodyMovement m = "Body movement" /\ cuffFit m = "Cuff fits properly" /\
  irregularPulse m = "Irregular pulse" /\ pulseRateRange m = "In range" /\
  measurementPosition m = "Improper position" /\ HSD m = "HSD detected".
Proof. vm_compute. repeat split. Qed.

(** The status texts when the frame has no byte 17: the flags are read from
    the text ["00000NaN"]. *)
Lemma hex2bin_undefined : hex2bin Undefined = "00000NaN".
Proof. reflexivity. Qed.

(** C9. The decoder returns a measurement for a byte sequence of any
    length, the empty one included: a numeric field whose byte (or one of
    whose two bytes) lies beyond the end of the input is [NaN], the others
    are read as on a full frame; nothing is signalled. *)
Theorem decode_total (frame : list byte) :
  exists m : Measurement,
    decode frame = m /\
    header m = u8 frame 0 /\ systolic m = u16le frame 1 /\
    diastolic m = u16le frame 3 /\ meanArterialPressure m = u8 frame 5 /\
    year m = u16le frame 7 /\ month m = u8 frame 9 /\ day m = u8 frame 10 /\
    hours m = u8 frame 11 /\ minutes m = u8 frame 12 /\
    seconds m = u8 frame 13 /\ pulseRate m = u16le frame 14 /\
    userID m = u8 frame 16 /\
    (forall i : nat, u8 frame i = NaN <-> (length frame <= i)%nat) /\
    (forall i : nat, u16le frame i = NaN <-> (length frame <= S i)%nat) /\
    decode [] =
      {| header := NaN; systolic := NaN; diastolic := NaN;
         meanArterialPressure := NaN; year := NaN; month := NaN; day := NaN;
         hours := NaN; minutes := NaN; seconds := NaN; pulseRate := NaN;
         userID := NaN;
         bodyMovement := "No body movement"; cuffFit := "Cuff fits properly";
         irregularPulse := "No irregular pulse"; pulseRateRange := "In range";
         measurementPosition := "Improper position"; HSD := "Undefined" |}.
Proof.
  exists (decode frame). split; [reflexivity|].
  rewrite decode_unfold. unfold convertBloodPressure.
  cbn [header systolic diastolic meanArterialPressure year month day hours
       minutes seconds pulseRate userID].
  rewrite !field_u8, !field_u16le.
  repeat (split; [reflexivity|]).
  split; [|split; [|reflexivity]].
  - intros i. unfold u8. destruct (frame !! i) as [b|] eqn:Hb.
    + apply lookup_lt_Some in Hb. split; [discriminate | lia].
    + apply lookup_ge_None in Hb. tauto.
  - intros i. unfold u16le.
    destruct (frame !! i) as [lo|] eqn:Hlo;
      destruct (frame !! S i) as [hi|] eqn:Hhi;
      try apply lookup_lt_Some in Hlo; try apply lookup_lt_Some in Hhi;
      try apply lookup_ge_None in Hlo; try apply lookup_ge_None in Hhi;
      split; (discriminate || lia || tauto || (intros; lia)).
Qed.

End DecoderFacts.

(** ** The scan *)

Section ScannerFacts.
Import Ble Scanner.

Lemma name_matches_exact (device : option Device) :
  name_matches device = true <->
  exists d, device = Some d /\ name d = Some "BM77".
Proof.
  unfold name_matches, deviceName. split.
  - destruct device as [d|]; [|discriminate].
    destruct (name d) as [n|] eqn:Hn; [|discriminate].
    destruct (string_dec n "BM77") as [->|]; [|discriminate].
    intros _. now exists d.
  - intros (d & -> & ->). reflexivity.
Qed.

(** An advertisement of another device changes nothing. *)
Lemma deliver_other (s : scan) (a : advert) :
  other_device a -> deliver s a = s.
Proof.
  destruct a as [error device]. intros [Herr Hname]. cbn in Herr, Hname.
  subst error. unfold deliver, listener. cbn [fst snd].
  rewrite Hname. now destruct (scanning s), device.
Qed.

Lemma deliver_all_others (s : scan) (adverts : list advert) :
  Forall other_device adverts -> deliver_all s adverts = s.
Proof.
  induction 1 as [|a rest Ha _ IH]; [reflexivity|].
  unfold deliver_all in *. cbn [fold_left]. now rewrite deliver_other.
Qed.

(** Once the scan is stopped the library delivers nothing. *)
Lemma deliver_all_stopped (s : scan) (adverts : list advert) :
  scanning s = false -> deliver_all s adverts = s.
Proof.
  intros Hs. induction adverts as [|a rest IH]; [reflexivity|].
  unfold deliver_all in *. cbn [fold_left]. unfold deliver at 2.
  now rewrite Hs.
Qed.

(** The target device, on a scan that is running and undecided. *)
Lemma deliver_target (s : scan) (d : Device) :
  scanning s = true -> found s = Pending -> name d = Some "BM77" ->
  deliver s (None, Some d) =
  {| scanning := false; stop_calls := S (stop_calls s);
     found := Fulfilled d |}.
Proof.
  intros Hs Hp Hn. unfold deliver, listener. cbn [fst snd].
  rewrite Hs. unfold name_matches, deviceName. rewrite Hn. cbn.
  unfold settle, stopDeviceScan. cbn. now rewrite Hp.
Qed.

(** An advertisement that is not of another device either carries an error,
    and the scan is then stopped and rejected, or is of the target. *)
Lemma deliver_decides (a : advert) :
  other_device a \/
  (exists d, a = (None, Some d) /\ name d = Some "BM77") \/
  (exists e, fst a = Some e /\
             scanning (deliver startScan a) = false /\
             forall d, found (deliver startScan a) <> Fulfilled d).
Proof.
  destruct a as [[e|] device].
  - right. right. exists e. split; [reflexivity|].
    unfold deliver, listener. cbn.
    destruct device as [d|]; [destruct (name_matches (Some d))|];
      cbn; split; (reflexivity || discriminate).
  - destruct (name_matches device) eqn:Hm.
    + right. left. apply name_matches_exact in Hm as (d & -> & Hn).
      now exists d.
    + left. now split.
Qed.

Lemma found_characterised (adverts : list advert) (d : Device) :
  found (deliver_all startScan adverts) = Fulfilled d <->
  exists pre post : list advert,
    adverts = (pre ++ (None, Some d) :: post)%list /\
    Forall other_device pre /\ name d = Some "BM77".
Proof.
  split.
  - induction adverts as [|a rest IH]; [discriminate|].
    destruct (deliver_decides a)
      as [Hother|[(d' & -> & Hn)|(e & _ & Hs & Hne)]].
    + unfold deliver_all in *. cbn [fold_left].
      rewrite (deliver_other _ _ Hother). intros Hf.
      destruct (IH Hf) as (pre & post & -> & Hpre & Hn).
      exists (a :: pre), post. repeat split; [|assumption].
      now constructor.
    + unfold deliver_all. cbn [fold_left].
      rewrite (deliver_target startScan d') by (assumption || reflexivity).
      fold (deliver_all
              {| scanning := false; stop_calls := S (stop_calls startScan);
                 found := Fulfilled d' |} rest).
      rewrite deliver_all_stopped by reflexivity.
      cbn. intros [= ->]. exists [], rest. repeat split; [|assumption].
      constructor.
    + unfold deliver_all. cbn [fold_left].
      fold (deliver_all (deliver startScan a) rest).
      rewrite deliver_all_stopped by assumption.
      intros Hf. now destruct (Hne d).
  - intros (pre & post & -> & Hpre & Hn).
    unfold deliver_all. rewrite fold_left_app.
    fold (deliver_all startScan pre). rewrite deliver_all_others by assumption.
    cbn [fold_left].
    rewrite deliver_target by (assumption || reflexivity).
    fold (deliver_all
            {| scanning := false; stop_calls := S (stop_calls startScan);
               found := Fulfilled d |} post).
    now rewrite deliver_all_stopped.
Qed.

(** C5. [startScan] resolves exactly when an advertisement carries the name
    "BM77", compared character by character: the promise is fulfilled with a
    device [d] if and only if [d] is named "BM77" and every callback before
    it was an advertisement of a device with another name or none; such
    advertisements leave the scan as it was; and when the promise is
    fulfilled the scan has been stopped, by one call of [stopDeviceScan].
    "BM770", "bm77" and a missing name do not match. *)
Theorem startScan_exact_name (adverts : list advert) (d : Device) :
  let s := deliver_all startScan adverts in
  (found s = Fulfilled d <->
   exists pre post : list advert,
     adverts = (pre ++ (None, Some d) :: post)%list /\
     Forall other_device pre /\ name d = Some "BM77") /\
  (found s = Fulfilled d -> scanning s = false /\ stop_calls s = 1%nat) /\
  (forall (s0 : scan) (a : advert), other_device a -> deliver s0 a = s0) /\
  (forall i : string,
     name_matches (Some {| id := i; name := Some "BM77" |}) = true /\
     name_matches (Some {| id := i; name := Some "BM770" |}) = false /\
     name_matches (Some {| id := i; name := Some "bm77" |}) = false /\
     name_matches (Some {| id := i; name := None |}) = false /\
     name_matches None = false).
Proof.
  intros s. subst s. split; [apply found_characterised|].
  split; [|split; [apply deliver_other | intros i; repeat split]].
  intros Hf. apply found_characterised in Hf as (pre & post & -> & Hpre & Hn).
  unfold deliver_all. rewrite fold_left_app.
  fold (deliver_all startScan pre). rewrite deliver_all_others by assumption.
  cbn [fold_left].
  rewrite deliver_target by (assumption || reflexivity).
  fold (deliver_all
          {| scanning := false; stop_calls := S (stop_calls startScan);
             found := Fulfilled d |} post).
  now rewrite deliver_all_stopped.
Qed.

Lemma startScan_exact_name_witness :
  let target := {| id := "A4:C1"; name := Some "BM77" |} in
  let other := {| id := "77:0B"; name := Some "bm77" |} in
  let s := deliver_all startScan
             [(None, Some other); (None, Some target); (None, Some other)] in
  found s = Fulfilled target /\ scanning s = false /\ stop_calls s = 1%nat.
Proof.
  intros target other s.
  assert (Hf : found s = Fulfilled target) by reflexivity.
  split; [exact Hf|].
  exact (proj1 (proj2 (startScan_exact_name _ target)) Hf).
Defined.

End ScannerFacts.

(** ** Connecting *)

Section ConnectionFacts.
Import Ble Connection Sessions.

Lemma run_snoc (evs : list event) (ev : event) :
  run (evs ++ [ev]) = step (run evs) ev.
Proof. unfold run. now rewrite fold_left_app. Qed.

Lemma run_app (evs later : list event) :
  run (evs ++ later) = fold_left step later (run evs).
Proof. unfold run. now rewrite fold_left_app. Qed.

(** Every step only adds to the trace. *)
Lemma trace_grows (w : world) (ev : event) :
  exists obs, trace (step w ev) = trace w ++ obs.
Proof.
  destruct ev as [|k f|d|k|k f|]; cbn [step].
  - eexists. reflexivity.
  - unfold device_connect_settles.
    destruct (calls w !! k) as [c|]; [|exists []; now rewrite app_nil_r].
    destruct (device_connect c), f; cbn [put trace];
      try (eexists; reflexivity); exists []; now rewrite app_nil_r.
  - exists []. cbn. now rewrite app_nil_r.
  - unfold timer_fires.
    destruct (calls w !! k) as [c|]; [|exists []; now rewrite app_nil_r].
    destruct (timer c) as [due|]; [|exists []; now rewrite app_nil_r].
    destruct (due <=? now w)%N; cbn [put trace];
      try (eexists; reflexivity); exists []; now rewrite app_nil_r.
  - unfold discovery_settles.
    destruct (calls w !! k) as [c|]; [|exists []; now rewrite app_nil_r].
    destruct (discovery c) as [[| |]|], f;
      try (exists []; now rewrite app_nil_r);
      try (cbn [put trace]; eexists; reflexivity).
    cbn [delay]. destruct (resolve tt <$> delay c) as [[| |]|];
      cbn [connect_resumes put trace]; eexists; reflexivity.
  - eexists. reflexivity.
Qed.

(** An invocation that waits for nothing is never touched again. *)
Lemma settled_call_kept (w : world) (ev : event) (k : nat) (c : call) :
  calls w !! k = Some c ->
  device_connect c <> Pending -> timer c = None ->
  discovery c <> Some Pending ->
  calls (step w ev) !! k = Some c.
Proof.
  intros Hk Hdc Ht Hd.
  assert (Hput : forall k' c' obs, k' <> k ->
            calls (put k' c' obs w) !! k = Some c).
  { intros k' c' obs Hne. cbn [put calls].
    now rewrite list_lookup_insert_ne. }
  destruct ev as [|k' f|d|k'|k' f|]; cbn [step]; try assumption.
  - cbn [connect calls]. now apply lookup_app_l_Some.
  - unfold device_connect_settles.
    destruct (calls w !! k') as [c'|] eqn:Hk'; [|assumption].
    destruct (decide (k' = k)) as [->|Hne].
    + rewrite Hk in Hk'. injection Hk' as <-.
      destruct (device_connect c); [contradiction|..]; destruct f; assumption.
    + destruct (device_connect c'), f; try assumption; now apply Hput.
  - unfold timer_fires.
    destruct (calls w !! k') as [c'|] eqn:Hk'; [|assumption].
    destruct (decide (k' = k)) as [->|Hne].
    + rewrite Hk in Hk'. injection Hk' as <-. now rewrite Ht.
    + destruct (timer c'); [|assumption].
      destruct (_ <=? _)%N; [now apply Hput | assumption].
  - unfold discovery_settles.
    destruct (calls w !! k') as [c'|] eqn:Hk'; [|assumption].
    destruct (decide (k' = k)) as [->|Hne].
    + rewrite Hk in Hk'. injection Hk' as <-.
      destruct (discovery c) as [[| |]|]; try contradiction;
        destruct f; assumption.
    + destruct (discovery c') as [[| |]|], f; try assumption;
        [now apply Hput|].
      cbn [delay]. destruct (resolve tt <$> delay c') as [[| |]|];
        try (now apply Hput).
      cbn [connect_resumes calls put].
      rewrite !list_lookup_insert_ne by assumption. assumption.
Qed.

Lemma settled_call_kept_forever (later : list event) (w : world) (k : nat)
    (c : call) :
  calls w !! k = Some c ->
  device_connect c <> Pending -> timer c = None ->
  discovery c <> Some Pending ->
  calls (fold_left step later w) !! k = Some c.
Proof.
  revert w. induction later as [|ev later IH]; intros w Hk Hdc Ht Hd.
  - assumption.
  - cbn [fold_left]. apply IH; try assumption.
    now apply settled_call_kept.
Qed.

(** C4 (what the program does when discovery fails).  After the connection
    succeeded, the delay elapsed and discovery failed with [e], the promise
    that [connect] returned is pending and stays so whatever happens later:
    the error only rejects the promise of the timer callback, which nothing
    awaits.  A failure of [device.connect()] itself does reject
    [connect]. *)
Theorem connect_pending_after_discovery_failure (e : BleError)
    (later : list event) :
  let w := run (failing_discovery e ++ later) in
  outcome 0 w = Some Pending /\
  timer_callback <$> calls w !! 0%nat = Some (Some (Rejected e)) /\
  delay <$> calls w !! 0%nat = Some (Some Pending) /\
  outcome 0 (run [CallConnect; DeviceConnectSettles 0 (Some e)]) =
    Some (Rejected e).
Proof.
  intros w. subst w. rewrite run_app. unfold outcome.
  rewrite (settled_call_kept_forever later _ 0 (stuck e));
    [| reflexivity | discriminate | reflexivity | discriminate].
  repeat split.
Qed.

Lemma sound_init : sound init.
Proof.
  split; cbn; try (intros; discriminate).
  - constructor.
  - intros k. split; [intros H; inversion H | discriminate].
Qed.

Lemma sound_elapse (w : world) (d : N) : sound w -> sound (elapse d w).
Proof. intros [? ? ? ? ? ? ?]. split; assumption. Qed.

Lemma established_neq :
  started <> established /\ discovering <> established /\
  (forall e, refused e <> established) /\
  (forall e, stuck e <> established) /\
  (forall due, settling due <> established).
Proof. repeat split; intros; discriminate. Qed.

(** A transition that replaces invocation [k], neither leaving nor entering
    the established shape, and adds observations to the trace. *)
Lemma sound_put (w : world) (k : nat) (c c' : call)
    (obs : list observation) :
  sound w -> calls w !! k = Some c ->
  c <> established -> c' <> established -> phase c' ->
  (forall due, c' = settling due ->
     exists t, Connected k t ∈ obs /\ due = (t + settling_delay)%N) ->
  (forall k0 t', DiscoverRequested k0 t' ∈ obs ->
     k0 = k /\ exists due, c = settling due /\ (due <= t')%N) ->
  (forall k0 s t, OnDisconnect k0 s t ∉ obs) ->
  sound (put k c' obs w).
Proof.
  intros [Hph Hnd Hob Htm Hdi Hes Hon] Hk Hc Hc' Hp Htimer Hdisc Hnone.
  assert (Hlt : (k < length (calls w))%nat) by (eapply lookup_lt_Some; eauto).
  assert (Hlook : forall k0 x, calls (put k c' obs w) !! k0 = Some x ->
            (k0 = k /\ x = c') \/ (k0 <> k /\ calls w !! k0 = Some x)).
  { intros k0 x. cbn [put calls]. rewrite list_lookup_insert_Some.
    intros [(-> & -> & _)|[Hne Hx]]; [left | right]; auto. }
  assert (Hnew : forall i x, (trace w ++ obs) !! i = Some x ->
            trace w !! i = Some x \/
            ((length (trace w) <= i)%nat /\ x ∈ obs)).
  { intros i x. rewrite lookup_app_Some.
    intros [?|[? Hx]]; [left | right]; auto.
    split; [assumption|]. eapply list_elem_of_lookup_2; eauto. }
  split; cbn [put observers trace].
  - intros k0 x Hx. destruct (Hlook _ _ Hx) as [[-> ->]|[_ Hold]]; eauto.
  - assumption.
  - intros k0. rewrite Hob. split.
    + intros Hold. cbn [put calls].
      destruct (decide (k = k0)) as [->|Hne]; [congruence|].
      now rewrite list_lookup_insert_ne.
    + intros Hx. destruct (Hlook _ _ Hx) as [[-> Heq]|[_ Hold]];
        [congruence | assumption].
  - intros k0 due Hx. destruct (Hlook _ _ Hx) as [[-> <-]|[_ Hold]].
    + destruct (Htimer due eq_refl) as (t & Hin & ->).
      apply list_elem_of_lookup_1 in Hin as [j Hj].
      exists (length (trace w) + j)%nat, t. split; [|reflexivity].
      rewrite lookup_app_r by lia.
      now replace (length (trace w) + j - length (trace w))%nat with j by lia.
    + destruct (Htm _ _ Hold) as (j & t & Hj & ->).
      exists j, t. split; [now apply lookup_app_l_Some | reflexivity].
  - intros i k0 t' Hi. destruct (Hnew _ _ Hi) as [Hold|[Hge Hin]].
    + destruct (Hdi _ _ _ Hold) as (j & t & Hlt' & Hj & Hle).
      exists j, t. repeat split; [assumption| |assumption].
      now apply lookup_app_l_Some.
    + destruct (Hdisc _ _ Hin) as (-> & due & -> & Hle).
      destruct (Htm _ _ Hk) as (j & t & Hj & ->).
      exists j, t. repeat split; [| |assumption].
      * apply lookup_lt_Some in Hj. lia.
      * now apply lookup_app_l_Some.
  - intros k0 Hx. destruct (Hlook _ _ Hx) as [[-> Heq]|[_ Hold]];
      [congruence|].
    destruct (Hes _ Hold) as (j & t & Hj).
    exists j, t. now apply lookup_app_l_Some.
  - intros i k0 s t Hi. destruct (Hnew _ _ Hi) as [Hold|[_ Hin]].
    + destruct (Hon _ _ _ _ Hold) as (-> & j & t0 & Hlt' & Hj).
      split; [reflexivity|]. exists j, t0.
      split; [assumption | now apply lookup_app_l_Some].
    + now destruct (Hnone k0 s t).
Qed.

Lemma sound_connect (w : world) : sound w -> sound (connect w).
Proof.
  intros [Hph Hnd Hob Htm Hdi Hes Hon].
  split; cbn [connect calls observers trace].
  - intros k c. rewrite lookup_snoc_Some.
    intros [[_ Hold]|[_ <-]]; [eauto | constructor].
  - assumption.
  - intros k. rewrite Hob, lookup_snoc_Some. split.
    + intros Hold. left. split; [eapply lookup_lt_Some; eauto | assumption].
    + intros [[_ Hold]|[_ Heq]]; [assumption | discriminate].
  - intros k due. rewrite lookup_snoc_Some.
    intros [[_ Hold]|[_ Heq]]; [|discriminate].
    destruct (Htm _ _ Hold) as (j & t & Hj & ->).
    exists j, t. split; [now apply lookup_app_l_Some | reflexivity].
  - intros i k t'. rewrite lookup_snoc_Some.
    intros [[_ Hold]|[_ Heq]]; [|discriminate].
    destruct (Hdi _ _ _ Hold) as (j & t & Hlt & Hj & Hle).
    exists j, t. repeat split; [assumption| |assumption].
    now apply lookup_app_l_Some.
  - intros k. rewrite lookup_snoc_Some.
    intros [[_ Hold]|[_ Heq]]; [|discriminate].
    destruct (Hes _ Hold) as (j & t & Hj).
    exists j, t. now apply lookup_app_l_Some.
  - intros i k s t. rewrite lookup_snoc_Some.
    intros [[_ Hold]|[_ Heq]]; [|discriminate].
    destruct (Hon _ _ _ _ Hold) as (-> & j & t0 & Hlt & Hj).
    split; [reflexivity|]. exists j, t0.
    split; [assumption | now apply lookup_app_l_Some].
Qed.

Lemma sound_device_disconnected (w : world) :
  sound w -> sound (device_disconnected w).
Proof.
  intros [Hph Hnd Hob Htm Hdi Hes Hon].
  split; cbn [device_disconnected calls observers trace];
    try assumption.
  - intros k due Hold. destruct (Htm _ _ Hold) as (j & t & Hj & ->).
    exists j, t. split; [now apply lookup_app_l_Some | reflexivity].
  - intros i k t'. rewrite lookup_app_Some.
    intros [Hold|[_ Hnew]].
    + destruct (Hdi _ _ _ Hold) as (j & t & Hlt & Hj & Hle).
      exists j, t. repeat split; [assumption| |assumption].
      now apply lookup_app_l_Some.
    + change (map ?f ?l) with (f <$> l) in Hnew.
      rewrite list_lookup_fmap in Hnew.
      destruct (observers w !! _); discriminate.
  - intros k Hold. destruct (Hes _ Hold) as (j & t & Hj).
    exists j, t. now apply lookup_app_l_Some.
  - intros i k s t. rewrite lookup_app_Some.
    intros [Hold|[Hge Hnew]].
    + destruct (Hon _ _ _ _ Hold) as (-> & j & t0 & Hlt & Hj).
      split; [reflexivity|]. exists j, t0.
      split; [assumption | now apply lookup_app_l_Some].
    + change (map ?f ?l) with (f <$> l) in Hnew.
      rewrite list_lookup_fmap in Hnew.
      destruct (observers w !! _) as [k'|] eqn:Hk'; [|discriminate].
      injection Hnew as -> -> _. split; [reflexivity|].
      assert (Hin : k ∈ observers w)
        by (eapply list_elem_of_lookup_2; eauto).
      apply Hob in Hin. destruct (Hes _ Hin) as (j & t0 & Hj).
      exists j, t0. split; [|now apply lookup_app_l_Some].
      apply lookup_lt_Some in Hj. lia.
Qed.

(** Discovery succeeds: the delay promise is resolved and [connect] runs to
    its end. *)
Lemma sound_established_step (w : world) (k : nat) :
  sound w -> calls w !! k = Some discovering ->
  sound {| now := now w;
           calls := <[k := established]> (calls w);
           observers := observers w ++ [k];
           trace := trace w ++ [Discovered k (now w)] |}.
Proof.
  intros [Hph Hnd Hob Htm Hdi Hes Hon] Hk.
  assert (Hlt : (k < length (calls w))%nat) by (eapply lookup_lt_Some; eauto).
  assert (Hfresh : k ∉ observers w).
  { rewrite Hob, Hk. discriminate. }
  split; cbn [calls observers trace].
  - intros k0 c. rewrite list_lookup_insert_Some.
    intros [(_ & <- & _)|[_ Hold]]; [constructor | eauto].
  - apply NoDup_app. repeat split; [assumption| |apply NoDup_singleton].
    intros x Hx ->%list_elem_of_singleton. contradiction.
  - intros k0. rewrite elem_of_app, list_elem_of_singleton, Hob.
    rewrite list_lookup_insert_Some. split.
    + intros [Hold | ->]; [|left; auto].
      right. split; [|assumption].
      intros ->. rewrite Hk in Hold. discriminate.
    + intros [(-> & _)|[_ Hold]]; [right | left]; auto.
  - intros k0 due. rewrite list_lookup_insert_Some.
    intros [(_ & Heq & _)|[_ Hold]]; [discriminate|].
    destruct (Htm _ _ Hold) as (j & t & Hj & ->).
    exists j, t. split; [now apply lookup_app_l_Some | reflexivity].
  - intros i k0 t'. rewrite lookup_snoc_Some.
    intros [[_ Hold]|[_ Heq]]; [|discriminate].
    destruct (Hdi _ _ _ Hold) as (j & t & Hlt' & Hj & Hle).
    exists j, t. repeat split; [assumption| |assumption].
    now apply lookup_app_l_Some.
  - intros k0. rewrite list_lookup_insert_Some.
    intros [(<- & _)|[_ Hold]].
    + exists (length (trace w)), (now w).
      rewrite lookup_app_r by lia. now rewrite Nat.sub_diag.
    + destruct (Hes _ Hold) as (j & t & Hj).
      exists j, t. now apply lookup_app_l_Some.
  - intros i k0 s t. rewrite lookup_snoc_Some.
    intros [[_ Hold]|[_ Heq]]; [|discriminate].
    destruct (Hon _ _ _ _ Hold) as (-> & j & t0 & Hlt' & Hj).
    split; [reflexivity|]. exists j, t0.
    split; [assumption | now apply lookup_app_l_Some].
Qed.

(** What a step does to an invocation, by the shape it has. *)
Lemma device_connect_settles_started (w : world) (k : nat)
    (failure : option BleError) :
  calls w !! k = Some started ->
  device_connect_settles k failure w =
  match failure with
  | None => put k (settling (now w + settling_delay)) [Connected k (now w)] w
  | Some e => put k (refused e) [] w
  end.
Proof.
  intros Hk. unfold device_connect_settles. rewrite Hk.
  now destruct failure.
Qed.

Lemma timer_fires_settling (w : world) (k : nat) (due : N) :
  calls w !! k = Some (settling due) ->
  timer_fires k w =
  if (due <=? now w)%N
  then put k discovering [DiscoverRequested k (now w)] w
  else w.
Proof. intros Hk. unfold timer_fires. now rewrite Hk. Qed.

Lemma discovery_settles_discovering (w : world) (k : nat)
    (failure : option BleError) :
  calls w !! k = Some discovering ->
  discovery_settles k failure w =
  match failure with
  | None =>
      {| now := now w;
         calls := <[k := established]> (calls w);
         observers := observers w ++ [k];
         trace := trace w ++ [Discovered k (now w)] |}
  | Some e => put k (stuck e) [] w
  end.
Proof.
  intros Hk. unfold discovery_settles. rewrite Hk.
  destruct failure; [reflexivity|].
  cbn. unfold connect_resumes, put. cbn.
  now rewrite list_insert_insert_eq.
Qed.

Lemma sound_step (w : world) (ev : event) : sound w -> sound (step w ev).
Proof.
  intros Hs. pose proof (sound_phases w Hs) as Hph.
  destruct established_neq as (N1 & N2 & N3 & N4 & N5).
  destruct ev as [|k f|d|k|k f|]; cbn [step].
  - now apply sound_connect.
  - destruct (calls w !! k) as [c|] eqn:Hk;
      [|unfold device_connect_settles; now rewrite Hk].
    destruct (Hph _ _ Hk);
      try (unfold device_connect_settles; rewrite Hk; assumption).
    rewrite device_connect_settles_started by assumption.
    destruct f as [e|].
    + apply (sound_put w k started (refused e) [] Hs Hk);
        [apply N1 | apply N3 | constructor | discriminate | |].
      * intros k0 t' Hin. inversion Hin.
      * intros k0 s t Hin. inversion Hin.
    + apply (sound_put w k started _ _ Hs Hk);
        [apply N1 | apply N5 | constructor | | |].
      * intros due [= <-]. exists (now w). split; [|reflexivity].
        apply list_elem_of_singleton. reflexivity.
      * intros k0 t' Hin%list_elem_of_singleton. discriminate.
      * intros k0 s t Hin%list_elem_of_singleton. discriminate.
  - now apply sound_elapse.
  - destruct (calls w !! k) as [c|] eqn:Hk;
      [|unfold timer_fires; now rewrite Hk].
    destruct (Hph _ _ Hk);
      try (unfold timer_fires; rewrite Hk; assumption).
    rewrite (timer_fires_settling _ _ _ Hk).
    destruct (due <=? now w)%N eqn:Hdue; [|assumption].
    apply N.leb_le in Hdue.
    apply (sound_put w k (settling due) discovering _ Hs Hk);
      [apply N5 | apply N2 | constructor | discriminate | |].
    + intros k0 t' Hin%list_elem_of_singleton. injection Hin as -> ->.
      split; [reflexivity|]. now exists due.
    + intros k0 s t Hin%list_elem_of_singleton. discriminate.
  - destruct (calls w !! k) as [c|] eqn:Hk;
      [|unfold discovery_settles; now rewrite Hk].
    destruct (Hph _ _ Hk);
      try (unfold discovery_settles; rewrite Hk; now destruct f).
    rewrite discovery_settles_discovering by assumption.
    destruct f as [e|].
    + apply (sound_put w k discovering (stuck e) [] Hs Hk);
        [apply N2 | apply N4 | constructor | discriminate | |].
      * intros k0 t' Hin. inversion Hin.
      * intros k0 s t Hin. inversion Hin.
    + now apply sound_established_step.
  - now apply sound_device_disconnected.
Qed.

Lemma sound_run (evs : list event) : sound (run evs).
Proof.
  induction evs as [|ev evs IH] using rev_ind.
  - apply sound_init.
  - rewrite run_snoc. now apply sound_step.
Qed.

(** C6. In every run, on the simulated clock, a discovery request of an
    invocation comes after the connection of that invocation succeeded, and
    no earlier than 1600 ms after it. *)
Theorem discovery_after_settling_delay (evs : list event) (i k : nat)
    (t' : N) :
  trace (run evs) !! i = Some (DiscoverRequested k t') ->
  exists j t,
    (j < i)%nat /\ trace (run evs) !! j = Some (Connected k t) /\
    (t + 1600 <= t')%N.
Proof.
  intros Hi.
  destruct (sound_discover _ (sound_run evs) _ _ _ Hi)
    as (j & t & Hlt & Hj & Hle).
  exists j, t. split; [exact Hlt|]. split; [exact Hj|].
  unfold settling_delay in Hle. exact Hle.
Qed.

(** The boundary: connected at time 0, a timer callback at 1600 ms requests
    discovery, one at 1599 ms requests nothing. *)
Lemma discovery_after_settling_delay_witness :
  trace (run (session 0)) !! 2%nat = Some (DiscoverRequested 0 1600) /\
  (exists j t,
     (j < 2)%nat /\ trace (run (session 0)) !! j = Some (Connected 0 t) /\
     (t + 1600 <= 1600)%N) /\
  trace (run [CallConnect; DeviceConnectSettles 0 None; Elapse 1599;
              TimerFires 0]) =
    [ConnectRequested 0 0; Connected 0 0].
Proof.
  split; [reflexivity|]. split; [|reflexivity].
  exact (discovery_after_settling_delay (session 0) 2 0 1600 eq_refl).
Defined.

(** An early timer callback is not run: nothing is requested before the
    delay has elapsed. *)
Example timer_not_early :
  trace (run [CallConnect; DeviceConnectSettles 0 None; Elapse 1599;
              TimerFires 0]) =
  [ConnectRequested 0 0; Connected 0 0].
Proof. reflexivity. Qed.

Lemma discovery_complete_established (w : world) (k : nat) :
  sound w ->
  discovery_complete k w = true <-> calls w !! k = Some established.
Proof.
  intros Hs. unfold discovery_complete. split.
  - destruct (calls w !! k) as [c|] eqn:Hk; [|discriminate].
    destruct (sound_phases w Hs _ _ Hk); cbn; try discriminate.
    reflexivity.
  - intros ->. reflexivity.
Qed.

(** One disconnection calls each registered listener once. *)
Lemma count_listeners (k : nat) (t : N) (l : list nat) :
  NoDup l ->
  length (filter (fun o => is_onDisconnect k o = true)
            (map (fun k' => OnDisconnect k' DISCONNECTED t) l)) =
  if bool_decide (k ∈ l) then 1%nat else 0%nat.
Proof.
  induction 1 as [|x l Hx Hnd IH]; [reflexivity|].
  cbn [map]. rewrite filter_cons. cbn [is_onDisconnect].
  destruct (Nat.eqb_spec k x) as [->|Hne].
  - rewrite decide_True by reflexivity. cbn [length]. rewrite IH.
    rewrite (bool_decide_eq_false_2 (x ∈ l)) by assumption.
    rewrite bool_decide_eq_true_2 by apply list_elem_of_here.
    reflexivity.
  - rewrite decide_False by discriminate. rewrite IH.
    rewrite (bool_decide_ext (k ∈ x :: l) (k ∈ l)); [reflexivity|].
    rewrite elem_of_cons. tauto.
Qed.

Lemma count_device_disconnected (w : world) (k : nat) :
  sound w ->
  onDisconnect_count k (device_disconnected w) =
  (onDisconnect_count k w + if discovery_complete k w then 1 else 0)%nat.
Proof.
  intros Hs. unfold onDisconnect_count.
  cbn [device_disconnected trace].
  rewrite filter_app, length_app. f_equal.
  rewrite count_listeners by apply (sound_nodup w Hs).
  destruct (discovery_complete k w) eqn:Hd.
  - rewrite bool_decide_eq_true_2; [reflexivity|].
    apply (sound_observers w Hs), discovery_complete_established; assumption.
  - rewrite bool_decide_eq_false_2; [reflexivity|]. intros Hin.
    apply (sound_observers w Hs) in Hin.
    apply (discovery_complete_established w k Hs) in Hin. congruence.
Qed.

Lemma count_app_quiet (k : nat) (tr obs : list observation) :
  Forall (fun o => is_onDisconnect k o = false) obs ->
  length (filter (fun o => is_onDisconnect k o = true) (tr ++ obs)) =
  length (filter (fun o => is_onDisconnect k o = true) tr).
Proof.
  intros Hq. rewrite filter_app, length_app.
  induction Hq as [|o obs Ho _ IH]; [cbn; lia|].
  rewrite filter_cons, decide_False by congruence. exact IH.
Qed.

(** No other step calls [onDisconnect]. *)
Lemma count_other_step (w : world) (ev : event) (k : nat) :
  ev <> DeviceDisconnected ->
  onDisconnect_count k (step w ev) = onDisconnect_count k w.
Proof.
  intros Hev. unfold onDisconnect_count.
  destruct ev as [|k' f|d|k'|k' f|]; cbn [step]; try contradiction.
  - cbn [connect trace]. apply count_app_quiet. now repeat constructor.
  - unfold device_connect_settles.
    destruct (calls w !! k') as [c|]; [|reflexivity].
    destruct (device_connect c), f; try reflexivity;
      cbn [put trace]; apply count_app_quiet; now repeat constructor.
  - reflexivity.
  - unfold timer_fires.
    destruct (calls w !! k') as [c|]; [|reflexivity].
    destruct (timer c) as [due|]; [|reflexivity].
    destruct (due <=? now w)%N; [|reflexivity].
    cbn [put trace]. apply count_app_quiet. now repeat constructor.
  - unfold discovery_settles.
    destruct (calls w !! k') as [c|]; [|reflexivity].
    destruct (discovery c) as [[| |]|], f; try reflexivity.
    + cbn [put trace]. apply count_app_quiet. now repeat constructor.
    + cbn [delay]. destruct (resolve tt <$> delay c) as [[| |]|];
        cbn [connect_resumes put trace];
        apply count_app_quiet; now repeat constructor.
Qed.

(** C7, as the program has it.  [onDisconnect] of an invocation is called
    with DISCONNECTED only, and never before the discovery of that
    invocation was reported complete; every disconnection the library
    reports calls it once if that discovery has completed and not at all
    otherwise; no other event calls it.  There is no limit of one call: the
    listener stays registered. *)
Theorem onDisconnect_per_disconnection (evs : list event) (k : nat) :
  let w := run evs in
  (forall i s t, trace w !! i = Some (OnDisconnect k s t) ->
     s = DISCONNECTED /\
     exists j t0, (j < i)%nat /\ trace w !! j = Some (Discovered k t0)) /\
  onDisconnect_count k (step w DeviceDisconnected) =
    (onDisconnect_count k w + if discovery_complete k w then 1 else 0)%nat /\
  (forall ev, ev <> DeviceDisconnected ->
     onDisconnect_count k (step w ev) = onDisconnect_count k w).
Proof.
  intros w. pose proof (sound_run evs) as Hs. fold w in Hs.
  split; [|split].
  - intros i s t. apply (sound_onDisconnect w Hs).
  - apply count_device_disconnected, Hs.
  - intros ev. apply count_other_step.
Qed.

Lemma onDisconnect_per_disconnection_witness :
  trace (run (session 0)) !! 4%nat = Some (OnDisconnect 0 DISCONNECTED 1600)
  /\ exists j t0,
       (j < 4)%nat /\ trace (run (session 0)) !! j = Some (Discovered 0 t0).
Proof.
  split; [reflexivity|].
  exact (proj2 (proj1 (onDisconnect_per_disconnection (session 0) 0)
                  4%nat DISCONNECTED 1600%N eq_refl)).
Defined.

(** C7 as stated fails: after a second session on the same device handle
    the callback of the first session has been called twice. *)
Lemma onDisconnect_twice_after_reconnect :
  discovery_complete 0 (run reconnect) = true /\
  onDisconnect_count 0 (run reconnect) = 2%nat /\
  ~ (forall evs k, (onDisconnect_count k (run evs) <= 1)%nat).
Proof.
  split; [reflexivity|]. split; [reflexivity|].
  intros H. specialize (H reconnect 0%nat). vm_compute in H. lia.
Qed.

End ConnectionFacts.

(** ** The notification stream *)

Section NotificationFacts.
Import Ble Decoder Notifications.

(** Whatever [Buffer.from(_, 'base64')] computes. *)
Variable from_base64 : string -> list byte.

(** What the listener does with one notification, spelled out. *)
Lemma listener_cases (h : nat) (error : option BleError)
    (result : option Characteristic) :
  listener from_base64 h (error, result) =
  match error with
  | Some e => [OnError h e]
  | None => []
  end ++
  match result with
  | Some {| value := Some text |} =>
      if String.eqb text "" then []
      else [OnData h (decode (from_base64 text))]
  | _ => []
  end.
Proof.
  unfold listener, error_branch, value_branch. cbn [fst snd].
  f_equal. destruct result as [[[text|]]|]; try reflexivity.
  cbn. unfold truthy. now destruct (String.eqb text "").
Qed.

Lemma notify_open (h : nat) (s : stack) (n : notification) :
  is_Some (monitors s !! h) ->
  notify from_base64 h s n =
  {| monitors := monitors s;
     calls := calls s ++ listener from_base64 h n |}.
Proof. intros [m Hm]. unfold Notifications.notify. now rewrite Hm. Qed.

Lemma notify_all_open (h : nat) (ns : list notification) (s : stack) :
  is_Some (monitors s !! h) ->
  notify_all from_base64 h s ns =
  {| monitors := monitors s;
     calls := calls s ++ flat_map (listener from_base64 h) ns |}.
Proof.
  revert s. induction ns as [|n ns IH]; intros s Hopen.
  - cbn. rewrite app_nil_r. now destruct s.
  - unfold Notifications.notify_all in *. cbn [fold_left flat_map].
    rewrite (notify_open h s n Hopen).
    rewrite IH by exact Hopen. cbn [monitors calls].
    now rewrite app_assoc.
Qed.


(** C10, as the program has it: [receiveData] opens a monitor on the blood
    pressure service and its measurement characteristic, and its promise is
    fulfilled with no value; the subscription the library returned, the
    position of the new monitor, is dropped. *)
Theorem receiveData_returns_nothing (s : stack) :
  receiveData s =
    ({| monitors := monitors s ++ [(service, characteristicNotify)];
        calls := calls s |}, NoValue) /\
  snd (monitorCharacteristicForService service characteristicNotify s) =
    length (monitors s) /\
  monitors (fst (receiveData s)) !! length (monitors s) =
    Some ("00001810-0000-1000-8000-00805f9b34fb",
          "00002a35-0000-1000-8000-00805f9b34fb").
Proof.
  repeat split. cbn.
  rewrite lookup_app_r by lia. now rewrite Nat.sub_diag.
Qed.

(** C10 as stated fails: the first call opens subscription 0 and returns no
    handle at all. *)
Lemma receiveData_no_handle :
  monitors (fst (receiveData no_monitor)) =
    [(service, characteristicNotify)] /\
  snd (receiveData no_monitor) = NoValue /\
  ~ (exists h, snd (receiveData no_monitor) = Subscription h).
Proof.
  repeat split. intros [h Hh]. discriminate.
Qed.

End NotificationFacts.



(** ** More on the decoder *)

Section DecoderMore.
Import Js Decoder Frame Ranges.

Lemma byte_value_inj (b b' : byte) : byte_value b = byte_value b' -> b = b'.
Proof.
  unfold byte_value. intros H. apply N2Z.inj in H.
  pose proof (Byte.of_to_N b) as Hb. pose proof (Byte.of_to_N b') as Hb'.
  rewrite H in Hb. congruence.
Qed.

Lemma byte_to_hex_length (b : byte) : String.length (byte_to_hex b) = 2%nat.
Proof. reflexivity. Qed.

(** X1. [base64ToHex] gives one text of two characters per decoded byte,
    in order, and reading each text back with [parseInt(_, 16)] gives the
    byte it was written from; without a text it gives the empty array. *)
Theorem base64ToHex_round_trip (from_base64 : string -> list byte)
    (text : string) :
  map (fun s => parseInt16 (Str s)) (base64ToHex from_base64 (Some text)) =
    map (fun b => Int (byte_value b)) (from_base64 text) /\
  Forall (fun s => String.length s = 2%nat)
    (base64ToHex from_base64 (Some text)) /\
  length (base64ToHex from_base64 (Some text)) = length (from_base64 text) /\
  base64ToHex from_base64 None = [].
Proof.
  unfold base64ToHex. rewrite hex_pairs_buffer.
  generalize (from_base64 text) as bytes. intros bytes.
  repeat split.
  - induction bytes as [|b rest IH]; [reflexivity|].
    cbn [map]. now rewrite parse_byte, IH.
  - induction bytes as [|b rest IH]; constructor; [reflexivity | exact IH].
  - apply length_map.
Qed.

(** X2. The loop of [base64ToHex] loses nothing of the hexadecimal text it
    cuts, whatever its length: the pieces joined give the text back, there
    are half as many pieces as characters, rounded up, and no piece is
    empty or longer than two characters. *)
Theorem hex_pairs_partition (hexString : string) :
  join (hex_pairs hexString) = hexString /\
  length (hex_pairs hexString) = Nat.div2 (S (String.length hexString)) /\
  Forall (fun piece => (1 <= String.length piece <= 2)%nat)
    (hex_pairs hexString).
Proof.
  assert (H : forall n s, (String.length s <= n)%nat ->
            join (hex_pairs s) = s /\
            length (hex_pairs s) = Nat.div2 (S (String.length s)) /\
            Forall (fun piece => (1 <= String.length piece <= 2)%nat)
              (hex_pairs s)).
  { induction n as [n IH] using lt_wf_ind. intros s Hs.
    destruct s as [|a [|b rest]].
    - repeat split. constructor.
    - repeat split. constructor; [cbn; lia | constructor].
    - destruct (IH (String.length rest)) with (s := rest)
        as (Hj & Hl & Hf); [cbn in Hs; lia | lia |].
      cbn [hex_pairs]. repeat split.
      + unfold join in *. cbn [fold_right]. rewrite Hj. reflexivity.
      + cbn [length String.length]. rewrite Hl. reflexivity.
      + constructor; [cbn; lia | exact Hf]. }
  apply (H (String.length hexString)). lia.
Qed.

Lemma substring_length (s : string) (n m : nat) :
  (n + m <= String.length s)%nat -> String.length (substring n m s) = m.
Proof.
  revert n m. induction s as [|c s IH]; intros n m H; cbn in H.
  - assert (n = 0%nat /\ m = 0%nat) as [-> ->] by lia. reflexivity.
  - destruct n as [|n]; destruct m as [|m]; cbn [substring String.length].
    + reflexivity.
    + rewrite IH by lia. reflexivity.
    + apply IH. lia.
    + apply IH. lia.
Qed.

Lemma append_length (s t : string) :
  String.length (s +:+ t) = (String.length s + String.length t)%nat.
Proof.
  induction s as [|c s IH]; [reflexivity|].
  change (String c s +:+ t) with (String c (s +:+ t)).
  cbn [String.length]. now rewrite IH.
Qed.

(** X3. [hex2bin] returns exactly eight characters on every argument, a
    number too large for a byte and [undefined] included, so that the eight
    flags the decoder reads from it are always there. *)
Theorem hex2bin_eight_characters (hexOneByte : value) :
  String.length (hex2bin hexOneByte) = 8%nat /\
  forall i : nat, (i < 8)%nat ->
    exists c, string_get (hex2bin hexOneByte) i = Str (String c "").
Proof.
  assert (Hlen : String.length (hex2bin hexOneByte) = 8%nat).
  { unfold hex2bin, substr.
    set (s := "00000000" +:+ toString2 (parseInt16 hexOneByte)).
    assert (Hs : (8 <= String.length s)%nat).
    { subst s. rewrite append_length. cbn [String.length]. lia. }
    change (-8 <? 0)%Z with true. cbv iota.
    rewrite substring_length; lia. }
  split; [exact Hlen|].
  assert (Hget : forall (t : string) (j : nat),
            (j < String.length t)%nat -> String.get j t <> None).
  { induction t as [|x t IHt]; intros j Hj; cbn in Hj; [lia|].
    destruct j as [|j]; [discriminate|]. cbn. apply IHt. lia. }
  intros i Hi. unfold string_get.
  destruct (String.get i (hex2bin hexOneByte)) as [c|] eqn:Hc.
  - now exists c.
  - exfalso. apply (Hget (hex2bin hexOneByte) i); [lia | exact Hc].
Qed.

(** The decoder reads its array at offsets up to 17 only. *)
Lemma convertBloodPressure_prefix (a a' : list string) :
  (forall i : nat, (i < 18)%nat -> a !! i = a' !! i) ->
  convertBloodPressure a = convertBloodPressure a'.
Proof.
  intros Hsame.
  assert (E : forall i : nat, (i < 18)%nat -> array_get a i = array_get a' i).
  { intros i Hi. unfold array_get. now rewrite (Hsame i Hi). }
  unfold convertBloodPressure. rewrite !E by lia. reflexivity.
Qed.

(** X4. The decoder never looks beyond offset 17: on a frame of at least
    18 bytes, bytes 18 and 19 and anything appended do not change the
    result, and the frame decodes as its first 18 bytes do. *)
Theorem decode_ignores_tail (frame tail : list byte) :
  (18 <= length frame)%nat ->
  decode (frame ++ tail) = decode frame /\
  decode (take 18 frame) = decode frame.
Proof.
  intros Hlen.
  assert (Hpre : forall f g : list byte,
            (forall i : nat, (i < 18)%nat -> f !! i = g !! i) ->
            decode f = decode g).
  { intros f g H. rewrite !decode_unfold.
    apply convertBloodPressure_prefix. intros i Hi.
    change (map byte_to_hex ?l) with (byte_to_hex <$> l).
    now rewrite !list_lookup_fmap, H. }
  split; apply Hpre; intros i Hi.
  - apply lookup_app_l. lia.
  - now apply lookup_take_lt.
Qed.

Lemma decode_ignores_tail_witness :
  (18 <= length (take 18 example_frame))%nat /\
  decode (take 18 example_frame ++ [xff; xff; xff]) =
  decode (take 18 example_frame).
Proof.
  assert (H : (18 <= length (take 18 example_frame))%nat) by (cbn; lia).
  split; [exact H|].
  exact (proj1 (decode_ignores_tail (take 18 example_frame)
                  [xff; xff; xff] H)).
Defined.

Lemma u8_below (frame : list byte) (i : nat) :
  (i < length frame)%nat -> below 256 (u8 frame i).
Proof.
  intros Hi. rewrite u8_present by assumption.
  eexists. split; [reflexivity|]. apply byte_value_range.
Qed.

Lemma u16le_below (frame : list byte) (i : nat) :
  (S i < length frame)%nat -> below 65536 (u16le frame i).
Proof.
  intros Hi. rewrite u16le_present by assumption.
  eexists. split; [reflexivity|]. unfold byte_at.
  pose proof (byte_value_range (nth i frame x00)).
  pose proof (byte_value_range (nth (S i) frame x00)). lia.
Qed.

(** X5. On a frame of at least 17 bytes no numeric field is [NaN]: the
    one-byte fields are integers from 0 to 255 and the two-byte fields
    integers from 0 to 65535. *)
Theorem decode_numeric_ranges (frame : list byte) :
  (17 <= length frame)%nat ->
  let m := decode frame in
  below 256 (header m) /\ below 65536 (systolic m) /\
  below 65536 (diastolic m) /\ below 256 (meanArterialPressure m) /\
  below 65536 (year m) /\ below 256 (month m) /\ below 256 (day m) /\
  below 256 (hours m) /\ below 256 (minutes m) /\ below 256 (seconds m) /\
  below 65536 (pulseRate m) /\ below 256 (userID m).
Proof.
  intros Hlen m. subst m. rewrite decode_unfold.
  unfold convertBloodPressure.
  cbn [header systolic diastolic meanArterialPressure year month day hours
       minutes seconds pulseRate userID].
  rewrite !field_u8, !field_u16le.
  repeat split; (apply u8_below || apply u16le_below); lia.
Qed.

Lemma decode_numeric_ranges_witness :
  (17 <= length example_frame)%nat /\
  below 65536 (year (decode example_frame)).
Proof.
  assert (H : (17 <= length example_frame)%nat) by (cbn; lia).
  split; [exact H|].
  exact (proj1 (proj2 (proj2 (proj2 (proj2
           (decode_numeric_ranges example_frame H)))))).
Defined.

(** The numeric fields of a frame of any length. *)
Lemma decode_numeric (frame : list byte) :
  let m := decode frame in
  header m = u8 frame 0 /\ systolic m = u16le frame 1 /\
  diastolic m = u16le frame 3 /\ meanArterialPressure m = u8 frame 5 /\
  year m = u16le frame 7 /\ month m = u8 frame 9 /\ day m = u8 frame 10 /\
  hours m = u8 frame 11 /\ minutes m = u8 frame 12 /\
  seconds m = u8 frame 13 /\ pulseRate m = u16le frame 14 /\
  userID m = u8 frame 16.
Proof.
  intros m. subst m. rewrite decode_unfold. unfold convertBloodPressure.
  cbn [header systolic diastolic meanArterialPressure year month day hours
       minutes seconds pulseRate userID].
  rewrite !field_u8, !field_u16le. repeat split.
Qed.

(** The status texts of a frame that has a status byte. *)
Lemma decode_status (frame : list byte) (b : byte) :
  frame !! 17%nat = Some b ->
  let m := decode frame in
  bodyMovement m = one_bit (bit b 0) "No body movement" "Body movement" /\
  cuffFit m = one_bit (bit b 1) "Cuff fits properly" "Cuff is too loose" /\
  irregularPulse m =
    one_bit (bit b 2) "No irregular pulse" "Irregular pulse" /\
  pulseRateRange m =
    two_bits (bit b 3) (bit b 4)
      "In range" "Exceeds upper limit" "Below lower limit" "Undefined" /\
  measurementPosition m =
    one_bit (bit b 5) "Proper position" "Improper position" /\
  HSD m =
    two_bits (bit b 6) (bit b 7)
      "HSD not detected" "HSD detected" "Unable to judge" "Undefined".
Proof.
  intros H17 m. subst m. rewrite decode_unfold.
  unfold convertBloodPressure.
  cbn [bodyMovement cuffFit irregularPulse pulseRateRange
       measurementPosition HSD].
  rewrite array_get_hex, H17, hex2bin_byte.
  unfold bits8.
  destruct (bit b 0), (bit b 1), (bit b 2), (bit b 3), (bit b 4),
    (bit b 5), (bit b 6), (bit b 7); repeat split; reflexivity.
Qed.

Lemma lookup_nth_byte (frame : list byte) (i : nat) :
  (i < length frame)%nat -> frame !! i = Some (nth i frame x00).
Proof.
  intros Hi. destruct (lookup_lt_is_Some_2 frame i Hi) as [b Hb].
  rewrite Hb. f_equal. symmetry. now apply nth_lookup_Some.
Qed.

(** A byte is the sum of its eight bits. *)
Lemma byte_value_bits (b : byte) :
  byte_value b =
  128 * Z.b2z (bit b 0) + 64 * Z.b2z (bit b 1) + 32 * Z.b2z (bit b 2) +
  16 * Z.b2z (bit b 3) + 8 * Z.b2z (bit b 4) + 4 * Z.b2z (bit b 5) +
  2 * Z.b2z (bit b 6) + Z.b2z (bit b 7).
Proof. destruct b; reflexivity. Qed.

Lemma one_bit_inj (t t' : bool) (zero one : string) :
  zero <> one -> one_bit t zero one = one_bit t' zero one -> t = t'.
Proof. intros Hne. destruct t, t'; cbn; congruence. Qed.

Lemma two_bits_inj (hi lo hi' lo' : bool) (t00 t01 t10 t11 : string) :
  NoDup [t00; t01; t10; t11] ->
  two_bits hi lo t00 t01 t10 t11 = two_bits hi' lo' t00 t01 t10 t11 ->
  hi = hi' /\ lo = lo'.
Proof.
  intros Hnd Heq. apply NoDup_ListNoDup in Hnd.
  inversion Hnd as [|? ? Hn1 Hnd1]; inversion Hnd1 as [|? ? Hn2 Hnd2];
    inversion Hnd2 as [|? ? Hn3 _]; subst.
  cbn [In] in Hn1, Hn2, Hn3.
  destruct hi, lo, hi', lo'; cbn in Heq; try (split; reflexivity);
    exfalso; intuition congruence.
Qed.

Ltac distinct_texts :=
  repeat first
    [ apply NoDup_nil_2
    | apply NoDup_cons_2;
      [rewrite ?elem_of_cons, elem_of_nil; intuition discriminate|] ].

(** X6. Nothing the decoder reads is lost: two frames of 20 bytes with the
    same decoded measurement have the same byte at every offset from 0 to
    17 other than 6. *)
Theorem decode_injective (f g : list byte) (i : nat) :
  length f = 20%nat -> length g = 20%nat -> decode f = decode g ->
  read_offset i -> f !! i = g !! i.
Proof.
  intros Hf Hg Heq [Hi Hne].
  destruct (decode_numeric f)
    as (F0 & F1 & F3 & F5 & F7 & F9 & F10 & F11 & F12 & F13 & F14 & F16).
  destruct (decode_numeric g)
    as (G0 & G1 & G3 & G5 & G7 & G9 & G10 & G11 & G12 & G13 & G14 & G16).
  cbv zeta in *. rewrite Heq in *.
  repeat match goal with
  | H : _ = u8 _ _ |- _ => rewrite u8_present in H by lia
  | H : _ = u16le _ _ |- _ => rewrite u16le_present in H by lia
  end.
  assert (Hbyte : forall j, (j < 20)%nat ->
            byte_at f j = byte_at g j -> f !! j = g !! j).
  { intros j Hj Hv. rewrite !lookup_nth_byte by lia.
    f_equal. now apply byte_value_inj. }
  assert (Hr : forall (h : list byte) j, 0 <= byte_at h j < 256).
  { intros h j. apply byte_value_range. }
  assert (H17 : f !! 17%nat = g !! 17%nat).
  { destruct (lookup_lt_is_Some_2 f 17) as [bf Hbf]; [lia|].
    destruct (lookup_lt_is_Some_2 g 17) as [bg Hbg]; [lia|].
    destruct (decode_status f bf Hbf) as (S0 & S1 & S2 & S34 & S5 & S67).
    destruct (decode_status g bg Hbg) as (T0 & T1 & T2 & T34 & T5 & T67).
    cbv zeta in *. rewrite Heq in *.
    rewrite T0 in S0. rewrite T1 in S1. rewrite T2 in S2.
    rewrite T34 in S34. rewrite T5 in S5. rewrite T67 in S67.
    apply one_bit_inj in S0; [|discriminate].
    apply one_bit_inj in S1; [|discriminate].
    apply one_bit_inj in S2; [|discriminate].
    apply one_bit_inj in S5; [|discriminate].
    apply two_bits_inj in S34 as [S3 S4]; [|distinct_texts].
    apply two_bits_inj in S67 as [S6 S7]; [|distinct_texts].
    rewrite Hbf, Hbg. f_equal. apply byte_value_inj.
    rewrite (byte_value_bits bf), (byte_value_bits bg).
    now rewrite S0, S1, S2, S3, S4, S5, S6, S7. }
  rewrite G0 in F0. rewrite G1 in F1. rewrite G3 in F3. rewrite G5 in F5.
  rewrite G7 in F7. rewrite G9 in F9. rewrite G10 in F10.
  rewrite G11 in F11. rewrite G12 in F12. rewrite G13 in F13.
  rewrite G14 in F14. rewrite G16 in F16.
  injection F0 as F0. injection F1 as F1. injection F3 as F3.
  injection F5 as F5. injection F7 as F7. injection F9 as F9.
  injection F10 as F10. injection F11 as F11. injection F12 as F12.
  injection F13 as F13. injection F14 as F14. injection F16 as F16.
  pose proof (Hr f 1%nat). pose proof (Hr f 2%nat). pose proof (Hr g 1%nat).
  pose proof (Hr g 2%nat). pose proof (Hr f 3%nat). pose proof (Hr f 4%nat).
  pose proof (Hr g 3%nat). pose proof (Hr g 4%nat). pose proof (Hr f 7%nat).
  pose proof (Hr f 8%nat). pose proof (Hr g 7%nat). pose proof (Hr g 8%nat).
  pose proof (Hr f 14%nat). pose proof (Hr f 15%nat).
  pose proof (Hr g 14%nat). pose proof (Hr g 15%nat).
  do 18 (destruct i as [|i]; [first [exact H17 | contradiction
                                    | apply Hbyte; lia]|]).
  lia.
Qed.

Lemma decode_injective_witness :
  length example_frame = 20%nat /\
  length (<[6%nat := xff]> example_frame) = 20%nat /\
  example_frame !! 7%nat = <[6%nat := xff]> example_frame !! 7%nat.
Proof.
  assert (H : decode example_frame = decode (<[6%nat := xff]> example_frame))
    by reflexivity.
  assert (H20 : length (<[6%nat := xff]> example_frame) = 20%nat)
    by reflexivity.
  split; [reflexivity|]. split; [exact H20|].
  apply (decode_injective example_frame (<[6%nat := xff]> example_frame) 7
           eq_refl H20 H).
  split; [cbn; lia | discriminate].
Defined.

(** X7. A frame too short to have a status byte still gets status texts,
    read from the text ["00000NaN"]: the first four fields take their
    no-issue value, the measurement position reads "Improper position" and
    HSD reads "Undefined". *)
Theorem decode_status_without_byte_17 (frame : list byte) :
  (length frame <= 17)%nat ->
  let m := decode frame in
  bodyMovement m = "No body movement" /\ cuffFit m = "Cuff fits properly" /\
  irregularPulse m = "No irregular pulse" /\ pulseRateRange m = "In range" /\
  measurementPosition m = "Improper position" /\ HSD m = "Undefined".
Proof.
  intros Hlen m. subst m. rewrite decode_unfold.
  unfold convertBloodPressure.
  cbn [bodyMovement cuffFit irregularPulse pulseRateRange
       measurementPosition HSD].
  rewrite array_get_hex, (lookup_ge_None_2 frame 17) by lia.
  repeat split.
Qed.

Lemma decode_status_without_byte_17_witness :
  (length (take 17 example_frame) <= 17)%nat /\
  measurementPosition (decode (take 17 example_frame)) =
    "Improper position".
Proof.
  assert (H : (length (take 17 example_frame) <= 17)%nat) by (cbn; lia).
  split; [exact H|].
  exact (proj1 (proj2 (proj2 (proj2 (proj2
           (decode_status_without_byte_17 (take 17 example_frame) H)))))).
Defined.

End DecoderMore.

(** ** More on the scan *)

Section ScannerMore.
Import Ble Scanner.

(** X8. A scan error rejects [startScan] with that error and stops the
    scan, whatever came before from other devices and whatever comes
    after.  When the same callback also carries a device named "BM77" the
    promise is still rejected, and [stopDeviceScan] has been called twice,
    because the first [if] of the listener does not return. *)
Theorem scan_error_rejects (pre post : list advert) (e : BleError)
    (device : option Device) :
  Forall other_device pre ->
  let s := deliver_all startScan (pre ++ (Some e, device) :: post) in
  found s = Rejected e /\ scanning s = false /\
  stop_calls s = if name_matches device then 2%nat else 1%nat.
Proof.
  intros Hpre s. subst s. unfold deliver_all. rewrite fold_left_app.
  fold (deliver_all startScan pre). rewrite deliver_all_others by assumption.
  cbn [fold_left].
  set (s1 := deliver startScan (Some e, device)).
  assert (H1 : found s1 = Rejected e /\ scanning s1 = false /\
               stop_calls s1 = if name_matches device then 2%nat else 1%nat).
  { subst s1. unfold deliver, listener. cbn.
    destruct device as [d|]; [|repeat split].
    destruct (name_matches (Some d)); repeat split. }
  destruct H1 as (Hf & Hs & Hc).
  fold (deliver_all s1 post). rewrite deliver_all_stopped by exact Hs.
  auto.
Qed.

Lemma scan_error_rejects_witness :
  let other := {| id := "77:0B"; name := Some "BM770" |} in
  let e := {| errorCode := 600; message := "Cannot start scanning" |} in
  Forall other_device [(None, Some other)] /\
  found (deliver_all startScan
           ([(None, Some other)] ++ (Some e, None) :: [])) = Rejected e.
Proof.
  intros other e.
  assert (H : Forall other_device [(None, Some other)]).
  { constructor; [split; reflexivity | constructor]. }
  split; [exact H|].
  exact (proj1 (scan_error_rejects [(None, Some other)] [] e None H)).
Defined.

(** X9. [stopScan] before any match cancels the scan for good: no later
    advertisement, not even of a device named "BM77", and no later error
    settles the promise of [startScan], which stays pending. *)
Theorem stopScan_leaves_promise_pending (pre post : list advert) :
  Forall other_device pre ->
  let s := deliver_all (stopScan (deliver_all startScan pre)) post in
  found s = Pending /\ scanning s = false /\ stop_calls s = 1%nat.
Proof.
  intros Hpre s. subst s.
  rewrite (deliver_all_others startScan pre) by assumption.
  rewrite deliver_all_stopped by reflexivity. repeat split.
Qed.

Lemma stopScan_leaves_promise_pending_witness :
  let target := {| id := "A4:C1"; name := Some "BM77" |} in
  Forall other_device [] /\
  found (deliver_all (stopScan (deliver_all startScan []))
           [(None, Some target)]) = Pending.
Proof.
  intros target. split; [constructor|].
  exact (proj1 (stopScan_leaves_promise_pending
                  [] [(None, Some target)] (Forall_nil_2 _))).
Defined.

Lemma listener_settled (error : option BleError) (device : option Device)
    (s : scan) :
  found s <> Pending -> found (listener error device s) = found s.
Proof.
  intros Hs. unfold listener.
  destruct error as [e|], device as [d|];
    try destruct (name_matches (Some d));
    cbn; destruct (found s); try reflexivity; contradiction.
Qed.

(** X10. Left to itself the scan runs exactly as long as the promise of
    [startScan] is pending: after any callbacks, the library is still
    scanning if and only if the promise is not settled.  And a settled
    promise is final: the listener, called again with anything, leaves it
    as it is. *)
Theorem scan_runs_while_pending (adverts : list advert)
    (error : option BleError) (device : option Device) :
  let s := deliver_all startScan adverts in
  (scanning s = true <-> found s = Pending) /\
  (found s <> Pending -> found (listener error device s) = found s).
Proof.
  intros s. split; [|apply listener_settled].
  subst s. induction adverts as [|a rest IH] using rev_ind.
  - cbn. tauto.
  - unfold deliver_all in *. rewrite fold_left_app. cbn [fold_left].
    set (s := fold_left deliver rest startScan) in *.
    unfold deliver. destruct (scanning s) eqn:Hs.
    + assert (Hp : found s = Pending) by now apply IH.
      destruct a as [[e|] [d|]]; unfold listener; cbn [fst snd].
      * destruct (name_matches (Some d)); cbn; rewrite Hp;
          split; discriminate.
      * cbn. rewrite Hp. split; discriminate.
      * destruct (name_matches (Some d)); cbn; rewrite ?Hp, ?Hs;
          split; (discriminate || reflexivity).
      * now rewrite Hs.
    + rewrite Hs. exact IH.
Qed.

Lemma scan_runs_while_pending_witness :
  let target := {| id := "A4:C1"; name := Some "BM77" |} in
  let s := deliver_all startScan [(None, Some target)] in
  found s <> Pending /\
  found (listener None (Some target) s) = found s.
Proof.
  intros target s.
  assert (H : found s <> Pending) by discriminate.
  split; [exact H|].
  exact (proj2 (scan_runs_while_pending [(None, Some target)]
                  None (Some target)) H).
Defined.

End ScannerMore.

(** ** More on connecting *)

Section ConnectionMore.
Import Ble Connection Sessions Tally.

Lemma tally_app (kd : kind) (k : nat) (l l' : list observation) :
  tally kd k (l ++ l') = (tally kd k l + tally kd k l')%nat.
Proof. unfold tally. now rewrite filter_app, length_app. Qed.

Lemma tally_pos (kd : kind) (k : nat) (l : list observation) (i : nat)
    (o : observation) :
  l !! i = Some o -> is_kind kd k o = true -> (0 < tally kd k l)%nat.
Proof.
  intros Hi Ho. unfold tally.
  assert (Hin : o ∈ filter (fun o => is_kind kd k o = true) l).
  { apply list_elem_of_filter. split; [exact Ho|].
    eapply list_elem_of_lookup_2; eauto. }
  destruct (filter _ l); [inversion Hin | cbn; lia].
Qed.

Lemma tidy_init : tidy init.
Proof. split; cbn; intros; try discriminate. now destruct kd. Qed.

Lemma tidy_elapse (w : world) (d : N) : tidy w -> tidy (elapse d w).
Proof.
  intros [Hc Hn Hd Hdd]. split; cbn [elapse now calls trace]; try assumption.
  intros i o Hi. specialize (Hc i o Hi). lia.
Qed.

(** A transition that replaces invocation [k] and adds observations about
    it, made at the current time. *)
Lemma tidy_put (w : world) (k : nat) (c c' : call)
    (obs : list observation) :
  tidy w -> calls w !! k = Some c ->
  Forall (fun o => time_of o = now w) obs ->
  (forall kd k0, k0 <> k -> tally kd k0 obs = 0%nat) ->
  (forall kd, (expected kd (Some c) + tally kd k obs)%nat =
              expected kd (Some c')) ->
  (c' = discovering ->
   c = discovering \/ exists t, DiscoverRequested k t ∈ obs) ->
  (forall k0 t, Discovered k0 t ∉ obs) ->
  tidy (put k c' obs w).
Proof.
  intros [Hc Hn Hd Hdd] Hk Ht Hother Hsame Hdisc Hnone.
  assert (Hlt : (k < length (calls w))%nat) by (eapply lookup_lt_Some; eauto).
  split; cbn [put now calls trace].
  - intros i o. rewrite lookup_app_Some. intros [Hold|[_ Hnew]].
    + now apply (Hc i).
    + rewrite Forall_forall in Ht.
      rewrite (Ht o); [lia|]. eapply list_elem_of_lookup_2; eauto.
  - intros kd k0. unfold occurrences in *. cbn [put trace].
    rewrite tally_app, Hn.
    destruct (decide (k0 = k)) as [->|Hne].
    + rewrite list_lookup_insert_eq by assumption. rewrite Hk. apply Hsame.
    + rewrite list_lookup_insert_ne by congruence.
      rewrite (Hother kd k0 Hne). lia.
  - intros k0. rewrite list_lookup_insert_Some.
    intros [(-> & -> & _)|[Hne Hold]].
    + destruct (Hdisc eq_refl) as [->|[t Hin]].
      * destruct (Hd _ Hk) as (j & t & Hj).
        exists j, t. now apply lookup_app_l_Some.
      * apply list_elem_of_lookup_1 in Hin as [j Hj].
        exists (length (trace w) + j)%nat, t.
        rewrite lookup_app_r by lia.
        now replace (length (trace w) + j - length (trace w))%nat
          with j by lia.
    + destruct (Hd _ Hold) as (j & t & Hj).
      exists j, t. now apply lookup_app_l_Some.
  - intros i k0 t'. rewrite lookup_app_Some. intros [Hold|[_ Hnew]].
    + destruct (Hdd _ _ _ Hold) as (j & t & Hlt' & Hj & Hle).
      exists j, t. repeat split; [assumption| |assumption].
      now apply lookup_app_l_Some.
    + exfalso. apply (Hnone k0 t'). eapply list_elem_of_lookup_2; eauto.
Qed.

Lemma tally_nil (kd : kind) (k : nat) : tally kd k [] = 0%nat.
Proof. reflexivity. Qed.

Lemma tally_one (kd : kind) (k : nat) (o : observation) :
  tally kd k [o] = if is_kind kd k o then 1%nat else 0%nat.
Proof.
  unfold tally. rewrite filter_cons.
  destruct (is_kind kd k o).
  - now rewrite decide_True.
  - now rewrite decide_False.
Qed.

Lemma tally_onDisconnect (kd : kind) (k : nat) (t : N) (l : list nat) :
  tally kd k (map (fun k' => OnDisconnect k' DISCONNECTED t) l) = 0%nat.
Proof.
  induction l as [|x l IH]; [reflexivity|].
  cbn [map]. change (?o :: ?r) with ([o] ++ r).
  rewrite tally_app, tally_one, IH. now destruct kd.
Qed.

(** Closes the side conditions of [tidy_put] for one transition. *)
Ltac tally_cases :=
  intros;
  repeat match goal with
  | kd : kind |- _ => destruct kd
  end;
  rewrite ?tally_one, ?tally_nil; cbn;
  rewrite ?Nat.eqb_refl;
  repeat match goal with
  | H : ?a <> ?b |- context [Nat.eqb ?a ?b] =>
      rewrite (proj2 (Nat.eqb_neq a b) H)
  end;
  reflexivity.

Lemma tidy_connect (w : world) : tidy w -> tidy (connect w).
Proof.
  intros [Hc Hn Hd Hdd]. split; cbn [connect now calls trace].
  - intros i o. rewrite lookup_snoc_Some.
    intros [[_ Hold]|[_ <-]]; [now apply (Hc i) | cbn; lia].
  - intros kd k. unfold occurrences in *. cbn [connect trace].
    rewrite tally_app, Hn, tally_one.
    destruct (Nat.lt_trichotomy k (length (calls w))) as [Hlt|[->|Hgt]].
    + rewrite lookup_app_l by assumption.
      assert (Hne : k <> length (calls w)) by lia.
      destruct kd; cbn; rewrite ?(proj2 (Nat.eqb_neq _ _) Hne); lia.
    + rewrite lookup_app_r by lia. rewrite Nat.sub_diag.
      rewrite (lookup_ge_None_2 (calls w)) by lia.
      destruct kd; cbn; rewrite ?Nat.eqb_refl; reflexivity.
    + rewrite lookup_ge_None_2 by lia.
      rewrite (lookup_ge_None_2 (calls w ++ [started]))
        by (rewrite length_app; cbn; lia).
      assert (Hne : k <> length (calls w)) by lia.
      destruct kd; cbn; rewrite ?(proj2 (Nat.eqb_neq _ _) Hne); lia.
  - intros k. rewrite lookup_snoc_Some.
    intros [[_ Hold]|[_ Heq]]; [|discriminate].
    destruct (Hd _ Hold) as (j & t & Hj).
    exists j, t. now apply lookup_app_l_Some.
  - intros i k t'. rewrite lookup_snoc_Some.
    intros [[_ Hold]|[_ Heq]]; [|discriminate].
    destruct (Hdd _ _ _ Hold) as (j & t & Hlt & Hj & Hle).
    exists j, t. repeat split; [assumption| |assumption].
    now apply lookup_app_l_Some.
Qed.

Lemma tidy_device_disconnected (w : world) :
  tidy w -> tidy (device_disconnected w).
Proof.
  intros [Hc Hn Hd Hdd].
  split; cbn [device_disconnected now calls trace]; try assumption.
  - intros i o. rewrite lookup_app_Some. intros [Hold|[_ Hnew]].
    + now apply (Hc i).
    + change (map ?f ?l) with (f <$> l) in Hnew.
      rewrite list_lookup_fmap in Hnew.
      destruct (observers w !! _); [|discriminate].
      injection Hnew as <-. cbn. lia.
  - intros kd k. unfold occurrences in *. cbn [device_disconnected trace].
    rewrite tally_app, tally_onDisconnect, Hn. lia.
  - intros k Hold. destruct (Hd _ Hold) as (j & t & Hj).
    exists j, t. now apply lookup_app_l_Some.
  - intros i k t'. rewrite lookup_app_Some. intros [Hold|[_ Hnew]].
    + destruct (Hdd _ _ _ Hold) as (j & t & Hlt & Hj & Hle).
      exists j, t. repeat split; [assumption| |assumption].
      now apply lookup_app_l_Some.
    + change (map ?f ?l) with (f <$> l) in Hnew.
      rewrite list_lookup_fmap in Hnew.
      destruct (observers w !! _); discriminate.
Qed.

Lemma tidy_established_step (w : world) (k : nat) :
  tidy w -> calls w !! k = Some discovering ->
  tidy {| now := now w;
          calls := <[k := established]> (calls w);
          observers := observers w ++ [k];
          trace := trace w ++ [Discovered k (now w)] |}.
Proof.
  intros [Hc Hn Hd Hdd] Hk.
  assert (Hlt : (k < length (calls w))%nat) by (eapply lookup_lt_Some; eauto).
  split; cbn [now calls trace].
  - intros i o. rewrite lookup_snoc_Some.
    intros [[_ Hold]|[_ <-]]; [now apply (Hc i) | cbn; lia].
  - intros kd k0. unfold occurrences in *. cbn [trace].
    rewrite tally_app, Hn, tally_one.
    destruct (decide (k0 = k)) as [->|Hne].
    + rewrite list_lookup_insert_eq by assumption. rewrite Hk.
      destruct kd; cbn; rewrite ?Nat.eqb_refl; reflexivity.
    + rewrite list_lookup_insert_ne by congruence.
      destruct kd; cbn; rewrite ?(proj2 (Nat.eqb_neq _ _) Hne); lia.
  - intros k0. rewrite list_lookup_insert_Some.
    intros [(_ & Heq & _)|[_ Hold]]; [discriminate|].
    destruct (Hd _ Hold) as (j & t & Hj).
    exists j, t. now apply lookup_app_l_Some.
  - intros i k0 t'. rewrite lookup_snoc_Some.
    intros [[_ Hold]|[-> Heq]].
    + destruct (Hdd _ _ _ Hold) as (j & t & Hlt' & Hj & Hle).
      exists j, t. repeat split; [assumption| |assumption].
      now apply lookup_app_l_Some.
    + injection Heq as <- <-.
      destruct (Hd _ Hk) as (j & t & Hj).
      exists j, t. repeat split.
      * apply lookup_lt_Some in Hj. lia.
      * now apply lookup_app_l_Some.
      * apply (Hc j _ Hj).
Qed.

Lemma tidy_step (w : world) (ev : event) :
  sound w -> tidy w -> tidy (step w ev).
Proof.
  intros Hs Ht. pose proof (sound_phases w Hs) as Hph.
  destruct ev as [|k f|d|k|k f|]; cbn [step].
  - now apply tidy_connect.
  - destruct (calls w !! k) as [c|] eqn:Hk;
      [|unfold device_connect_settles; now rewrite Hk].
    destruct (Hph _ _ Hk);
      try (unfold device_connect_settles; rewrite Hk; assumption).
    rewrite device_connect_settles_started by assumption.
    destruct f as [e|].
    + apply (tidy_put w k started (refused e) [] Ht Hk);
        [constructor | tally_cases | tally_cases | discriminate |].
      intros k0 t Hin. inversion Hin.
    + apply (tidy_put w k started _ _ Ht Hk);
        [repeat constructor | tally_cases | tally_cases | discriminate |].
      intros k0 t Hin%list_elem_of_singleton. discriminate.
  - now apply tidy_elapse.
  - destruct (calls w !! k) as [c|] eqn:Hk;
      [|unfold timer_fires; now rewrite Hk].
    destruct (Hph _ _ Hk);
      try (unfold timer_fires; rewrite Hk; assumption).
    rewrite (timer_fires_settling _ _ _ Hk).
    destruct (due <=? now w)%N; [|assumption].
    apply (tidy_put w k (settling due) discovering _ Ht Hk);
      [repeat constructor | tally_cases | tally_cases | |].
    + intros _. right. exists (now w). apply list_elem_of_singleton.
      reflexivity.
    + intros k0 t Hin%list_elem_of_singleton. discriminate.
  - destruct (calls w !! k) as [c|] eqn:Hk;
      [|unfold discovery_settles; now rewrite Hk].
    destruct (Hph _ _ Hk);
      try (unfold discovery_settles; rewrite Hk; now destruct f).
    rewrite discovery_settles_discovering by assumption.
    destruct f as [e|].
    + apply (tidy_put w k discovering (stuck e) [] Ht Hk);
        [constructor | tally_cases | tally_cases | discriminate |].
      intros k0 t Hin. inversion Hin.
    + now apply tidy_established_step.
  - now apply tidy_device_disconnected.
Qed.

Lemma tidy_run (evs : list event) : tidy (run evs).
Proof.
  induction evs as [|ev evs IH] using rev_ind.
  - apply tidy_init.
  - rewrite run_snoc. apply tidy_step; [apply sound_run | exact IH].
Qed.

Lemma outcome_phase (w : world) (k : nat) (p : promise unit) :
  sound w -> outcome k w = Some p -> p <> Pending ->
  (exists e, p = Rejected e /\ calls w !! k = Some (refused e)) \/
  (p = Fulfilled tt /\ calls w !! k = Some established).
Proof.
  intros Hs Ho Hp. unfold outcome in Ho.
  destruct (calls w !! k) as [c|] eqn:Hk; [|discriminate].
  injection Ho as <-.
  destruct (sound_phases w Hs _ _ Hk); cbn in *; try contradiction.
  - left. now exists e.
  - right. now split.
Qed.

Lemma onDisconnect_count_zero (w : world) (k : nat) :
  (forall i s t, trace w !! i <> Some (OnDisconnect k s t)) ->
  onDisconnect_count k w = 0%nat.
Proof.
  intros Hno. unfold onDisconnect_count.
  destruct (filter _ (trace w)) as [|o rest] eqn:Hf; [reflexivity|].
  exfalso.
  assert (Hin : o ∈ filter (fun o => is_onDisconnect k o = true) (trace w))
    by (rewrite Hf; left).
  apply list_elem_of_filter in Hin as [Ho Hin].
  apply list_elem_of_lookup_1 in Hin as [i Hi].
  destruct o as [| | | |k' s t]; try discriminate.
  cbn in Ho. apply Nat.eqb_eq in Ho as <-. exact (Hno _ _ _ Hi).
Qed.

(** X11. When [device.connect()] is refused with [e], [connect] rejects
    with [e], and that is the only way it rejects; for such an invocation
    discovery is never requested, no listener is registered and
    [onDisconnect] is never called. *)
Theorem connect_refused (evs : list event) (k : nat) (e : BleError) :
  let w := run evs in
  outcome k w = Some (Rejected e) ->
  calls w !! k = Some (refused e) /\
  occurrences Connections k w = 0%nat /\
  occurrences DiscoverRequests k w = 0%nat /\
  (k ∉ observers w) /\ onDisconnect_count k w = 0%nat.
Proof.
  intros w Ho.
  pose proof (sound_run evs) as Hs. pose proof (tidy_run evs) as Ht.
  fold w in Hs, Ht.
  destruct (outcome_phase w k _ Hs Ho) as [(e' & [= <-] & Hk)|[Hp _]];
    [discriminate | | discriminate].
  split; [exact Hk|]. rewrite !(tidy_counts w Ht), Hk.
  split; [reflexivity|]. split; [reflexivity|]. split.
  - rewrite (sound_observers w Hs), Hk. discriminate.
  - apply onDisconnect_count_zero. intros i s t Hi.
    destruct (sound_onDisconnect w Hs _ _ _ _ Hi) as (_ & j & t0 & _ & Hj).
    pose proof (tally_pos Discoveries k _ _ _ Hj) as Hpos.
    cbn in Hpos. rewrite Nat.eqb_refl in Hpos. specialize (Hpos eq_refl).
    pose proof (tidy_counts w Ht Discoveries k) as Hn.
    unfold occurrences in Hn. rewrite Hk in Hn. cbn in Hn. lia.
Qed.

Lemma connect_refused_witness :
  outcome 0 (run (refused_connection timeout_error)) =
    Some (Rejected timeout_error) /\
  onDisconnect_count 0 (run (refused_connection timeout_error)) = 0%nat.
Proof.
  split; [reflexivity|].
  exact (proj2 (proj2 (proj2 (proj2
           (connect_refused (refused_connection timeout_error) 0
              timeout_error eq_refl))))).
Defined.

(** X12. The promise [connect] returned settles at most once: once it is
    fulfilled or rejected, nothing that happens later changes it. *)
Theorem connect_outcome_final (evs later : list event) (k : nat)
    (p : promise unit) :
  outcome k (run evs) = Some p -> p <> Pending ->
  outcome k (run (evs ++ later)) = Some p.
Proof.
  intros Ho Hp. pose proof (sound_run evs) as Hs.
  rewrite run_app. unfold outcome.
  destruct (outcome_phase _ k p Hs Ho Hp) as [(e & -> & Hk)|[-> Hk]].
  - rewrite (settled_call_kept_forever later _ k (refused e));
      [reflexivity | exact Hk | discriminate | reflexivity | discriminate].
  - rewrite (settled_call_kept_forever later _ k established);
      [reflexivity | exact Hk | discriminate | reflexivity | discriminate].
Qed.

Lemma connect_outcome_final_witness :
  outcome 0 (run (session 0)) = Some (Fulfilled tt) /\
  outcome 0 (run (session 0 ++ session 1)) = Some (Fulfilled tt).
Proof.
  split; [reflexivity|].
  apply (connect_outcome_final (session 0) (session 1) 0 (Fulfilled tt)
           eq_refl).
  discriminate.
Defined.

(** X13. Nothing is retried: in every run each invocation of [connect]
    asks the device to connect exactly once, and is connected, asks for
    discovery and sees discovery complete at most once each. *)
Theorem connect_requests_once (evs : list event) (k : nat) :
  let w := run evs in
  occurrences ConnectRequests k w =
    (if decide (k < length (calls w))%nat then 1 else 0)%nat /\
  (occurrences Connections k w <= 1)%nat /\
  (occurrences DiscoverRequests k w <= 1)%nat /\
  (occurrences Discoveries k w <= 1)%nat.
Proof.
  intros w. pose proof (tidy_run evs) as Ht. fold w in Ht.
  rewrite !(tidy_counts w Ht).
  destruct (calls w !! k) as [c|] eqn:Hk.
  - apply lookup_lt_Some in Hk as Hlt. rewrite decide_True by assumption.
    cbn. destruct (device_connect c), (discovery c) as [[| |]|];
      repeat split; lia.
  - apply lookup_ge_None in Hk. rewrite decide_False by lia.
    cbn. repeat split; lia.
Qed.

(** X14. [connect] is fulfilled exactly when discovery has completed, which
    is exactly when its disconnect listener is registered; and discovery is
    reported complete only after it was requested, hence no earlier than
    1600 ms after the connection succeeded. *)
Theorem connect_fulfilled_when_discovered (evs : list event) (k : nat) :
  let w := run evs in
  (outcome k w = Some (Fulfilled tt) <-> discovery_complete k w = true) /\
  (discovery_complete k w = true <-> k ∈ observers w) /\
  (forall i t', trace w !! i = Some (Discovered k t') ->
     exists j t, (j < i)%nat /\ trace w !! j = Some (Connected k t) /\
                 (t + 1600 <= t')%N).
Proof.
  intros w.
  pose proof (sound_run evs) as Hs. pose proof (tidy_run evs) as Ht.
  fold w in Hs, Ht.
  split; [|split].
  - rewrite (discovery_complete_established w k Hs). split.
    + intros Ho.
      destruct (outcome_phase w k _ Hs Ho) as [(e & He & _)|[_ Hk]];
        [discriminate | discriminate | exact Hk].
    + intros Hk. unfold outcome. now rewrite Hk.
  - rewrite (discovery_complete_established w k Hs).
    symmetry. apply (sound_observers w Hs).
  - intros i t' Hi.
    destruct (tidy_discovered w Ht _ _ _ Hi) as (j & t & Hji & Hj & Hle).
    destruct (sound_discover w Hs _ _ _ Hj) as (j0 & t0 & Hlt & Hj0 & Hd).
    unfold settling_delay in Hd.
    exists j0, t0. repeat split; [lia | exact Hj0 | lia].
Qed.

(** The boundary: connected at time 0 and fulfilled at 1600 ms; with a
    timer callback at 1599 ms only, discovery is not requested and
    [connect] stays pending. *)
Lemma connect_fulfilled_when_discovered_witness :
  trace (run (session 0)) !! 3%nat = Some (Discovered 0 1600) /\
  (exists j t, (j < 3)%nat /\
     trace (run (session 0)) !! j = Some (Connected 0 t) /\
     (t + 1600 <= 1600)%N) /\
  outcome 0 (run [CallConnect; DeviceConnectSettles 0 None; Elapse 1599;
                  TimerFires 0; DiscoverySettles 0 None]) = Some Pending.
Proof.
  split; [reflexivity|]. split; [|reflexivity].
  exact (proj2 (proj2 (connect_fulfilled_when_discovered (session 0) 0))
           3%nat 1600%N eq_refl).
Defined.

End ConnectionMore.

(** ** The configuration check *)

Section HelpFacts.
Import Ble Help Shown.

Lemma checkBleConfig_returned (env : environment) (b : bool) :
  fst (checkBleConfig env) = Returned b -> b = true.
Proof.
  destruct env as [[] [[]|] [[]|]]; cbn; intros H;
    try discriminate; now injection H.
Qed.

(** X15. [checkBleConfig] never returns [false]: it returns [true] or
    throws.  It returns [true] exactly when the platform is iOS, or Android
    with the location permission granted, and Bluetooth is powered on. *)
Theorem checkBleConfig_true_or_throws (env : environment) :
  (forall b, fst (checkBleConfig env) = Returned b -> b = true) /\
  (fst (checkBleConfig env) = Returned true <->
   permitted env /\ bluetooth env = Resolves PoweredOn).
Proof.
  unfold permitted.
  destruct env as [[] [[]|] [[]|]]; cbn; split;
    try (intros b [= <-]; reflexivity); try (intros b Hb; discriminate);
    (split; [intros H; try discriminate; auto
            | intros [[H|[H H']] H'']; try discriminate; reflexivity]).
Qed.

(** X16. The location permission is requested on Android only, and the
    Bluetooth state is queried only once the platform is iOS or the
    permission was granted.  Otherwise the check throws the request for the
    location permission without looking at Bluetooth: on Android when the
    permission is denied or the request itself fails, and on every other
    platform, where nothing was asked at all. *)
Theorem checkBleConfig_questions (env : environment) :
  (In RequestPermission (snd (checkBleConfig env)) <->
   platform env = android) /\
  (In QueryState (snd (checkBleConfig env)) <-> permitted env) /\
  (~ permitted env ->
   fst (checkBleConfig env) = Threw (JsError give_permission)) /\
  (platform env <> android -> platform env <> ios ->
   snd (checkBleConfig env) = []).
Proof.
  unfold permitted.
  destruct env as [[] [[]|] [[]|]]; cbn;
    repeat split; intros; try reflexivity; try discriminate;
    try tauto; try congruence; intuition (discriminate || congruence).
Qed.

Lemma checkBleConfig_questions_witness :
  let env := {| platform := android; permission := None;
                bluetooth := Resolves PoweredOn |} in
  ~ permitted env /\
  fst (checkBleConfig env) = Threw (JsError give_permission).
Proof.
  intros env.
  assert (H : ~ permitted env).
  { intros [H|[_ H]]; discriminate. }
  split; [exact H|].
  exact (proj1 (proj2 (proj2 (checkBleConfig_questions env))) H).
Defined.

End HelpFacts.

(** ** The screen *)

Section AppFacts.
Import Ble Decoder Shown App.

(** Whatever [Buffer.from(_, 'base64')] computes. *)
Variable from_base64 : string -> list byte.

Lemma call_back_listener (h : nat) (n : Notifications.notification)
    (s : screen) :
  let s' :=
    fold_left call_back (Notifications.listener from_base64 h n) s in
  measurements s' =
    measurements s ++ map (fun t => decode (from_base64 t)) (payloads [n]) /\
  errorMsg s' = last_disconnect_message (errorMsg s) [n] /\
  state s' = state s /\ device s' = device s.
Proof.
  destruct n as [error result]. rewrite listener_cases.
  destruct error as [e|]; destruct result as [[[text|]]|]; cbn;
    try destruct (String.eqb text ""); unfold onError; cbn;
    try destruct (errorCode e =? 201)%Z; cbn;
    rewrite ?app_nil_r; repeat split.
Qed.

Lemma call_back_listeners (h : nat) (ns : list Notifications.notification)
    (s : screen) :
  let s' :=
    fold_left call_back (flat_map (Notifications.listener from_base64 h) ns)
      s in
  measurements s' =
    measurements s ++ map (fun t => decode (from_base64 t)) (payloads ns) /\
  errorMsg s' = last_disconnect_message (errorMsg s) ns /\
  state s' = state s /\ device s' = device s.
Proof.
  revert s. induction ns as [|n ns IH]; intros s.
  - cbn. rewrite app_nil_r. repeat split.
  - cbn [flat_map]. cbv zeta. rewrite fold_left_app.
    destruct (call_back_listener h n s) as (Hm & He & Hs & Hd).
    cbv zeta in Hm, He, Hs, Hd.
    destruct (IH (fold_left call_back
                    (Notifications.listener from_base64 h n) s))
      as (Hm' & He' & Hs' & Hd').
    cbv zeta in Hm', He', Hs', Hd'.
    rewrite Hm', He', Hs', Hd', Hm, He, Hs, Hd.
    repeat split.
    + rewrite <- app_assoc, <- map_app. f_equal. f_equal.
      destruct n as [error [[[text|]]|]]; cbn;
        try destruct (String.eqb text ""); reflexivity.
    + destruct n as [[e|] result]; reflexivity.
Qed.

(** X17. After "Receive Data" the state is RECEIVING and stays so, and
    the screen lists the decoded measurements of exactly the notifications
    that carried a value, in the order they arrived, after those it already
    had.  Transport errors never change the list or the state; only an
    error with code 201 is shown, the last one winning. *)
Theorem received_measurements_shown (st : Notifications.stack)
    (ns : list Notifications.notification) (s : screen) (d : Device) :
  device s = Some d ->
  Notifications.calls st = [] ->
  let pressed := receive_data_pressed s st in
  let h := length (Notifications.monitors st) in
  let s' :=
    fold_left call_back
      (Notifications.calls
         (Notifications.notify_all from_base64 h (snd pressed) ns))
      (fst pressed) in
  measurements s' =
    measurements s ++ map (fun t => decode (from_base64 t)) (payloads ns) /\
  errorMsg s' = last_disconnect_message (errorMsg s) ns /\
  state s' = RECEIVING /\ device s' = device s.
Proof.
  intros Hd Hnone pressed h s'. subst s' pressed h.
  unfold receive_data_pressed. rewrite Hd. cbn [fst snd].
  rewrite notify_all_open.
  - cbn [Notifications.calls Notifications.receiveData
         Notifications.monitorCharacteristicForService fst].
    rewrite Hnone. cbn [app].
    pose proof (call_back_listeners (length (Notifications.monitors st))
                  ns (setState RECEIVING s)) as H.
    cbv zeta in H. destruct H as (Hm & He & Hs & Hdev).
    repeat split; [exact Hm | exact He | exact Hs |].
    rewrite Hdev. exact Hd.
  - cbn. rewrite lookup_app_r by lia. rewrite Nat.sub_diag.
    eexists. reflexivity.
Qed.

End AppFacts.

Lemma received_measurements_shown_witness :
  let B := fun _ : string => Frame.example_frame in
  let d := {| Ble.id := "A4:C1"; Ble.name := Some "BM77" |} in
  let s := App.setDevice d App.initial in
  let gone := {| Ble.errorCode := 201; Ble.message := "Disconnected" |} in
  let n := (None, Some {| Ble.value := Some "AHgAUAAAAOcHBg8KHgBIAAAAAAA=" |})
  in
  let pressed := App.receive_data_pressed s Notifications.no_monitor in
  App.device s = Some d /\
  Notifications.calls Notifications.no_monitor = [] /\
  App.measurements
    (fold_left App.call_back
       (Notifications.calls
          (Notifications.notify_all B 0 (snd pressed)
             [n; (Some gone, None); n]))
       (fst pressed)) =
  [Decoder.decode Frame.example_frame; Decoder.decode Frame.example_frame].
Proof.
  intros B d s gone n pressed.
  split; [reflexivity|]. split; [reflexivity|].
  exact (proj1 (received_measurements_shown B Notifications.no_monitor
                  [n; (Some gone, None); n] s d eq_refl eq_refl)).
Defined.

Section AppConnection.
Import Ble Connection Sessions Tally App.

(** X18. What "Connect" leaves on the screen when connecting fails.  If
    discovery fails, the promise of [connect] never settles and the screen
    stays on "Connecting..." without any message, whatever happens later.
    If the device refuses the connection, the message of the error is
    shown and the state is nevertheless set to CONNECTED. *)
Theorem connect_screen_after_failure (s : screen) (d : Device)
    (e : BleError) (later : list event) :
  device s = Some d ->
  (exists p,
     outcome 0 (run (failing_discovery e ++ later)) = Some p /\
     connect_pressed p s = setState CONNECTING s) /\
  (exists p,
     outcome 0 (run (refused_connection e ++ later)) = Some p /\
     connect_pressed p s =
       setState CONNECTED (setErrorMsg (message e) (setState CONNECTING s))).
Proof.
  intros Hd. unfold connect_pressed. rewrite Hd. split.
  - exists Pending. split; [|reflexivity].
    rewrite run_app. unfold outcome.
    rewrite (settled_call_kept_forever later _ 0 (stuck e));
      [reflexivity | reflexivity | discriminate | reflexivity | discriminate].
  - exists (Rejected e). split; [|reflexivity].
    rewrite run_app. unfold outcome.
    rewrite (settled_call_kept_forever later _ 0 (refused e));
      [reflexivity | reflexivity | discriminate | reflexivity | discriminate].
Qed.

Lemma connect_screen_after_failure_witness :
  let d := {| id := "A4:C1"; name := Some "BM77" |} in
  let s := setDevice d (setState FOUND initial) in
  device s = Some d /\
  exists p,
    outcome 0 (run (failing_discovery timeout_error ++ [DeviceDisconnected]))
      = Some p /\
    connect_pressed p s = setState CONNECTING s.
Proof.
  intros d s. split; [reflexivity|].
  exact (proj1 (connect_screen_after_failure s d timeout_error
                  [DeviceDisconnected] eq_refl)).
Defined.

End AppConnection.

Section AppScan.
Import Ble Scanner Help Shown App.

(** X19. "Start scan" reaches FOUND exactly when the configuration check
    returned and the scan found a device, which is then the one kept and
    is named "BM77".  In every other case the state stays SCANNING; when
    the check throws, its message is shown, whatever the scan would have
    found. *)
Theorem start_scan_screen (env : environment) (adverts : list advert)
    (s : screen) :
  let scan := found (deliver_all startScan adverts) in
  let s' := start_scan_pressed env scan s in
  (state s' = FOUND <->
   fst (checkBleConfig env) = Returned true /\
   exists d, scan = Fulfilled d) /\
  (state s' = FOUND ->
   exists d, device s' = Some d /\ name d = Some "BM77") /\
  (state s' <> FOUND -> state s' = SCANNING) /\
  (forall t, fst (checkBleConfig env) = Threw t ->
     s' = setErrorMsg (message_of t) (setState SCANNING s)).
Proof.
  intros scan s'. subst s'. unfold start_scan_pressed.
  destruct (fst (checkBleConfig env)) as [b|t] eqn:Hc.
  - rewrite (checkBleConfig_returned env b Hc).
    destruct scan as [|d|e] eqn:Hscan; cbn.
    + repeat split; try discriminate; try tauto.
      intros [_ [d Hd]]. discriminate.
    + repeat split; try discriminate; try tauto; eauto.
      intros _. exists d. split; [reflexivity|].
      subst scan. apply found_characterised in Hscan.
      destruct Hscan as (pre & post & _ & _ & Hn). exact Hn.
    + repeat split; try discriminate; try tauto.
      intros [_ [d Hd]]. discriminate.
  - cbn. repeat split; try discriminate; try tauto.
    + intros [H _]. discriminate.
    + intros t' [= <-]. reflexivity.
Qed.

Lemma start_scan_screen_witness :
  let env := {| platform := ios; permission := None;
                bluetooth := Resolves PoweredOn |} in
  let target := {| id := "A4:C1"; name := Some "BM77" |} in
  let s' := start_scan_pressed env
              (found (deliver_all startScan [(None, Some target)]))
              initial in
  state s' = FOUND /\
  exists d, device s' = Some d /\ name d = Some "BM77".
Proof.
  intros env target s'.
  assert (H : state s' = FOUND) by reflexivity.
  split; [exact H|].
  exact (proj1 (proj2 (start_scan_screen env [(None, Some target)]
                         initial)) H).
Defined.

End AppScan.
